(** * trendlens-ai: the retrying remote-call layer

    A shallow embedding of [src/utils/errors.ts] and
    [src/services/geminiService.ts], followed by the properties of the
    retry orchestrator [callGeminiWithRetry] and of the two service
    operations [generateStyledImage] and [analyzeTrend].

    Conventions of the embedding.
    - A JavaScript string is a [string] of bytes (its UTF-8 form). The
      substrings the code searches for are ASCII, so searching bytes
      and searching UTF-16 code units agree.
    - A promise is represented by the way it settles, an [Outcome].
    - Everything outside the orchestrator (the remote service, the
      caller's UI state) is a world [W] threaded through the thunk and
      through the [onRetry] callback; what the orchestrator itself does
      (invoking the thunk, calling [onRetry], logging, sleeping) is
      recorded, in order, in a trace of [Event]s.
    - The orchestrator is embedded twice. [Retry] takes thunks that
      throw values with a message that is a string or undefined, as
      every error object of the runtime and of the SDK is, and
      callbacks that return; [RetryAny] takes any thrown value and
      callbacks that may throw, and agrees with [Retry] where both
      apply ([attempts_refined]). *)

From Stdlib Require Import String Ascii List Sorted ZArith Bool Lia DecimalString.
From Stdlib Require QArith.
Import ListNotations.

Set Warnings "-register-all".

Local Open Scope string_scope.
Local Open Scope list_scope.
Local Open Scope Z_scope.

(* ================================================================== *)
(** * Part I: definitions                                              *)
(* ================================================================== *)

(** ** The string operations of the runtime used by the code *)

Module JsString.

(** One byte of [String.prototype.toLowerCase]: the letters A-Z move to
    a-z, every other byte is kept. Lower-casing a character outside ASCII
    gives no ASCII character, but for U+212A (to "k") and U+0130 (to "i"
    and a combining dot); no substring the code looks for has a "k" or
    ends in "i", so an occurrence of one of them is neither made nor
    lost by leaving those bytes alone. *)
Definition lowerChar (c : ascii) : ascii :=
  let n := nat_of_ascii c in
  if (Nat.leb 65 n && Nat.leb n 90)%bool then ascii_of_nat (n + 32) else c.

Fixpoint toLowerCase (s : string) : string :=
  match s with
  | EmptyString => EmptyString
  | String c rest => String (lowerChar c) (toLowerCase rest)
  end.

Fixpoint startsWith (s p : string) : bool :=
  match p, s with
  | EmptyString, _ => true
  | String _ _, EmptyString => false
  | String b p', String a s' => (Ascii.eqb a b && startsWith s' p')%bool
  end.

(** [String.prototype.includes]: [needle] occurs somewhere in [s]. *)
Fixpoint includes (s needle : string) : bool :=
  if startsWith s needle then true
  else match s with
       | EmptyString => false
       | String _ rest => includes rest needle
       end.

(** A string is falsy exactly when it is empty; [s || d]. *)
Definition orElse (s : option string) (d : string) : string :=
  match s with
  | Some (String c r) => String c r
  | Some EmptyString => d
  | None => d
  end.

(** Number-to-string conversion of a template literal, for integers. *)
Definition ofInteger (z : Z) : string := NilZero.string_of_int (Z.to_int z).

(** [String.prototype.trim]: white space and line terminators are taken
    off both ends. They are the ASCII ones (tab, line feed, vertical tab,
    form feed, carriage return, space) and, in their UTF-8 form, U+00A0,
    U+1680, U+2000 to U+200A, U+2028, U+2029, U+202F, U+205F, U+3000 and
    U+FEFF. *)
Definition isSpace1 (a : ascii) : bool :=
  let n := nat_of_ascii a in
  (Nat.leb 9 n && Nat.leb n 13 || Nat.eqb n 32)%bool.

Definition isSpace2 (a b : ascii) : bool :=
  (Nat.eqb (nat_of_ascii a) 194 && Nat.eqb (nat_of_ascii b) 160)%bool.

Definition isSpace3 (a b c : ascii) : bool :=
  let x := nat_of_ascii a in
  let y := nat_of_ascii b in
  let z := nat_of_ascii c in
  (Nat.eqb x 225 && Nat.eqb y 154 && Nat.eqb z 128
   || Nat.eqb x 226 && Nat.eqb y 128
      && (Nat.leb 128 z && Nat.leb z 138
          || Nat.eqb z 168 || Nat.eqb z 169 || Nat.eqb z 175)
   || Nat.eqb x 226 && Nat.eqb y 129 && Nat.eqb z 159
   || Nat.eqb x 227 && Nat.eqb y 128 && Nat.eqb z 128
   || Nat.eqb x 239 && Nat.eqb y 187 && Nat.eqb z 191)%bool.

Fixpoint trimStart (s : string) : string :=
  match s with
  | EmptyString => s
  | String a r1 =>
      if isSpace1 a then trimStart r1
      else match r1 with
           | EmptyString => s
           | String b r2 =>
               if isSpace2 a b then trimStart r2
               else match r2 with
                    | EmptyString => s
                    | String c r3 => if isSpace3 a b c then trimStart r3 else s
                    end
           end
  end.

Fixpoint reverse (s : string) : string :=
  match s with
  | EmptyString => EmptyString
  | String c rest => (reverse rest ++ String c "")%string
  end.

(** [trimStart] on a reversed string, whose multi-byte characters are
    reversed too. *)
Fixpoint trimStartReversed (s : string) : string :=
  match s with
  | EmptyString => s
  | String a r1 =>
      if isSpace1 a then trimStartReversed r1
      else match r1 with
           | EmptyString => s
           | String b r2 =>
               if isSpace2 b a then trimStartReversed r2
               else match r2 with
                    | EmptyString => s
                    | String c r3 =>
                        if isSpace3 c b a then trimStartReversed r3 else s
                    end
           end
  end.

Definition trimEnd (s : string) : string :=
  reverse (trimStartReversed (reverse s)).

Definition trim (s : string) : string := trimEnd (trimStart s).

End JsString.

(** ** src/utils/errors.ts *)

Module Errors.

(** The classes of thrown values that occur. [ApiError] and its three
    subclasses are declared in errors.ts; [Error], [SyntaxError] and
    [TypeError] are the runtime's; [Foreign] is any other class a thunk
    may throw (the SDK's own errors, for instance). *)
Inductive ErrorClass : Type :=
| Error
| SyntaxError
| TypeError
| ApiError
| RateLimitError
| InvalidInputError
| ServerError
| Foreign (className : string).

(** A thrown value: its class and its [message] property, which the
    orchestrator reads with [?.] and so may be undefined. *)
Record JsError : Type := mkError { cls : ErrorClass; message : option string }.

(** [this.name] as the constructors of errors.ts set it. *)
Definition name (e : JsError) : string :=
  match cls e with
  | Error => "Error"
  | SyntaxError => "SyntaxError"
  | TypeError => "TypeError"
  | ApiError => "ApiError"
  | RateLimitError => "RateLimitError"
  | InvalidInputError => "InvalidInputError"
  | ServerError => "ServerError"
  | Foreign n => n
  end.

(** [e instanceof ApiError]: the base class and its three subclasses. *)
Definition instanceofApiError (e : JsError) : bool :=
  match cls e with
  | ApiError | RateLimitError | InvalidInputError | ServerError => true
  | _ => false
  end.

(** [new Error(m)]: an undefined argument leaves the message empty. *)
Definition messageOf (m : option string) : option string :=
  match m with
  | Some s => Some s
  | None => Some ""
  end.

Definition new_Error (m : string) : JsError := mkError Error (Some m).

Definition new_ApiError (m : option string) : JsError :=
  mkError ApiError (messageOf m).

Definition RateLimitError_default : string :=
  "API request limit reached. This can happen on the free tier. Please wait a moment and try again.".

Definition InvalidInputError_default : string :=
  "There was an issue with one of the uploaded images. Please try using a different, clear image.".

Definition ServerError_default : string :=
  "The AI service is currently unavailable. Please try again later.".

(** A constructor with a default parameter: [None] is a call without
    argument. *)
Definition new_RateLimitError (m : option string) : JsError :=
  mkError RateLimitError
          (Some (match m with Some s => s | None => RateLimitError_default end)).

Definition new_InvalidInputError (m : option string) : JsError :=
  mkError InvalidInputError
          (Some (match m with Some s => s | None => InvalidInputError_default end)).

Definition new_ServerError (m : option string) : JsError :=
  mkError ServerError
          (Some (match m with Some s => s | None => ServerError_default end)).

End Errors.

Import Errors.

(** ** Promises and observable actions *)

(** How a promise settles. *)
Inductive Outcome (A : Type) : Type :=
| Resolved (v : A)
| Rejected (e : JsError).

Arguments Resolved {A} v.
Arguments Rejected {A} e.

(** What the orchestrator does, in the order it does it. *)
Inductive Event : Type :=
| EvCall                      (* apiCall() is invoked *)
| EvOnRetry (attempt : Z)     (* onRetry(attempt) is called *)
| EvWarn (line : string)      (* console.warn(line) *)
| EvSleep (ms : Z).           (* sleep(ms) is awaited *)

(** ** src/services/geminiService.ts: callGeminiWithRetry *)

Module Retry.

Section Orchestrator.

Context {W T : Type}.

(** The settled result of one run: outcome, world left behind, and the
    actions taken. *)
Record Run : Type := mkRun
  { outcome : Outcome T;
    final : W;
    trace : list Event }.

(** The thunk [apiCall : () => Promise<T>] and the optional callback
    [onRetry?: (attempt: number) => void], both acting on the world. *)
Variable apiCall : W -> Outcome T * W.
Variable onRetry : option (Z -> W -> W).

Definition MAX_RETRIES : Z := 3.

(** [onRetry?.(attempt)] *)
Definition callOnRetry (attempt : Z) (w : W) : W * list Event :=
  match onRetry with
  | Some f => (f attempt w, [EvOnRetry attempt])
  | None => (w, [])
  end.

Definition after (evs : list Event) (r : Run) : Run :=
  mkRun (outcome r) (final r) (evs ++ trace r).

(** The three flags computed in the catch block from the lower-cased
    message. *)
Definition errorMessage (lastError : JsError) : string :=
  JsString.orElse (option_map JsString.toLowerCase (message lastError)) "".

Definition isRateLimitError (errorMessage : string) : bool :=
  JsString.includes errorMessage "429"
  || JsString.includes errorMessage "quota"
  || JsString.includes errorMessage "resource_exhausted".

Definition isServerError (errorMessage : string) : bool :=
  JsString.includes errorMessage "500"
  || JsString.includes errorMessage "503"
  || JsString.includes errorMessage "service unavailable".

Definition isInvalidInputError (errorMessage : string) : bool :=
  JsString.includes errorMessage "400"
  || JsString.includes errorMessage "invalid argument".

Definition backoffDelay (attempt : Z) : Z := 1000 * 2 ^ (attempt - 1).

(** The message the orchestrator gives the [InvalidInputError] it throws. *)
Definition invalidInputNotice : string :=
  "There was an issue with one of the uploaded images. Please try using a different, clear image in a common format (PNG, JPG, WEBP).".

Definition warnLine (attempt delay : Z) : string :=
  ("Retriable error detected. Retrying in "
     ++ JsString.ofInteger (delay / 1000) ++ "s... (Attempt "
     ++ JsString.ofInteger attempt ++ "/"
     ++ JsString.ofInteger (MAX_RETRIES - 1) ++ ")")%string.

(** The body of the [for] loop. [remaining] is the number of values of
    [attempt] the loop has still to go through, [MAX_RETRIES + 1 -
    attempt]; the loop test [attempt <= MAX_RETRIES] is [remaining] being
    non-zero, and the statement after the loop is the [O] case. *)
Fixpoint attempts (remaining : nat) (attempt : Z) (lastError : option JsError)
         (w : W) : Run :=
  match remaining with
  | O =>
      mkRun (Rejected
               (match lastError with
                | Some e => e
                | None => new_ApiError
                            (Some "An unknown error occurred after multiple retries.")
                end))
            w []
  | S remaining' =>
      match apiCall w with
      | (Resolved v, w1) => mkRun (Resolved v) w1 [EvCall]
      | (Rejected e, w1) =>
          let msg := errorMessage e in
          let rate := isRateLimitError msg in
          let server := isServerError msg in
          let invalid := isInvalidInputError msg in
          if invalid then
            mkRun (Rejected (new_InvalidInputError (Some invalidInputNotice)))
                  w1 [EvCall]
          else if (rate || server) && (attempt <? MAX_RETRIES) then
            let delay := backoffDelay attempt in
            let (w2, called) := callOnRetry attempt w1 in
            after (EvCall :: called ++ [EvWarn (warnLine attempt delay); EvSleep delay])
                  (attempts remaining' (attempt + 1) (Some e) w2)
          else if rate then mkRun (Rejected (new_RateLimitError None)) w1 [EvCall]
          else if server then mkRun (Rejected (new_ServerError None)) w1 [EvCall]
          else mkRun (Rejected (new_ApiError (message e))) w1 [EvCall]
      end
  end.

Definition callGeminiWithRetry (w : W) : Run :=
  attempts (Z.to_nat MAX_RETRIES) 1 None w.

End Orchestrator.

Arguments Run : clear implicits.

End Retry.

(** ** JSON values, [JSON.stringify] and [JSON.parse] *)

Module Json.

(** A parsed JSON text. A number is kept as the decimal it was written
    as, [mantissa * 10^exponent]; an object lists its properties in the
    order they were first set. *)
Inductive value : Type :=
| JNull
| JBool (b : bool)
| JNumber (mantissa exponent : Z)
| JString (s : string)
| JArray (items : list value)
| JObject (members : list (string * value)).

Fixpoint lookup (key : string) (members : list (string * value)) : option value :=
  match members with
  | [] => None
  | (k, v) :: rest => if String.eqb k key then Some v else lookup key rest
  end.

(** [v.key] for a parsed value [v] other than null and a key that is not
    a built-in property of strings or arrays: undefined ([None]) unless
    [v] is an object that has the property. *)
Definition getProperty (v : value) (key : string) : option value :=
  match v with
  | JObject members => lookup key members
  | _ => None
  end.

(** Setting a property: an existing one keeps its place. *)
Fixpoint setMember (key : string) (v : value) (members : list (string * value))
  : list (string * value) :=
  match members with
  | [] => [(key, v)]
  | (k, old) :: rest =>
      if String.eqb k key then (k, v) :: rest
      else (k, old) :: setMember key v rest
  end.

Definition dquote : ascii := "034"%char.
Definition backslash : ascii := "092"%char.

Definition hexDigit (n : nat) : ascii :=
  ascii_of_nat (if Nat.ltb n 10 then 48 + n else 87 + n).

(** One character of a string, as [JSON.stringify] writes it. *)
Definition quoteChar (c : ascii) : string :=
  let n := nat_of_ascii c in
  if Nat.eqb n 34 then String backslash (String dquote "")
  else if Nat.eqb n 92 then String backslash (String backslash "")
  else if Nat.eqb n 8 then String backslash "b"
  else if Nat.eqb n 12 then String backslash "f"
  else if Nat.eqb n 10 then String backslash "n"
  else if Nat.eqb n 13 then String backslash "r"
  else if Nat.eqb n 9 then String backslash "t"
  else if Nat.ltb n 32 then
    String backslash
           (String "u" (String "0" (String "0"
              (String (hexDigit (n / 16)) (String (hexDigit (n mod 16)) "")))))
  else String c "".

Fixpoint quoteChars (s : string) : string :=
  match s with
  | EmptyString => EmptyString
  | String c rest => (quoteChar c ++ quoteChars rest)%string
  end.

Definition quote (s : string) : string :=
  String dquote (quoteChars s ++ String dquote "")%string.

(** [JSON.stringify] of an object literal whose property values are
    strings or undefined: a property whose value is undefined is left
    out. *)
Fixpoint stringifyMembers (members : list (string * option string)) : list string :=
  match members with
  | [] => []
  | (k, Some v) :: rest => (quote k ++ ":" ++ quote v)%string :: stringifyMembers rest
  | (_, None) :: rest => stringifyMembers rest
  end.

Definition stringifyObject (members : list (string * option string)) : string :=
  ("{" ++ String.concat "," (stringifyMembers members) ++ "}")%string.

(** *** A reference [JSON.parse]

    The grammar of ECMA-404, by recursive descent. It is used for the
    concrete runs below; the service operations themselves take the
    parser of the runtime as a parameter. A number is kept as the
    decimal the text writes, mantissa and exponent, and is not rounded
    to a double; the members of an object stay in the order in which the
    text first sets them. *)

Definition isWs (c : ascii) : bool :=
  let n := nat_of_ascii c in
  (Nat.eqb n 32 || Nat.eqb n 9 || Nat.eqb n 10 || Nat.eqb n 13)%bool.

Fixpoint skipWs (s : string) : string :=
  match s with
  | String c rest => if isWs c then skipWs rest else s
  | EmptyString => s
  end.

Definition isDigit (c : ascii) : bool :=
  let n := nat_of_ascii c in (Nat.leb 48 n && Nat.leb n 57)%bool.

Definition digitValue (c : ascii) : Z := Z.of_nat (nat_of_ascii c - 48).

(** The longest run of digits at the head of [s]: its value read after
    the digits [acc], how many digits there were, and what follows. *)
Fixpoint takeDigits (acc : Z) (count : nat) (s : string) : Z * nat * string :=
  match s with
  | String c rest =>
      if isDigit c then takeDigits (10 * acc + digitValue c) (S count) rest
      else (acc, count, s)
  | EmptyString => (acc, count, s)
  end.

Definition parseFraction (int : Z) (s : string) : option (Z * nat * string) :=
  match s with
  | String "." rest =>
      match takeDigits int 0 rest with
      | (_, O, _) => None
      | (m, count, rest') => Some (m, count, rest')
      end
  | _ => Some (int, O, s)
  end.

Definition parseExponent (s : string) : option (Z * string) :=
  let digits (sign : Z) (rest : string) :=
    match takeDigits 0 0 rest with
    | (_, O, _) => None
    | (e, _, rest') => Some (sign * e, rest')
    end in
  match s with
  | String c rest =>
      if (Ascii.eqb c "e" || Ascii.eqb c "E")%bool then
        match rest with
        | String "+" rest' => digits 1 rest'
        | String "-" rest' => digits (-1) rest'
        | _ => digits 1 rest
        end
      else Some (0, s)
  | EmptyString => Some (0, s)
  end.

Definition parseNumber (s : string) : option (value * string) :=
  let (sign, s1) :=
    match s with
    | String "-" rest => (-1, rest)
    | _ => (1, s)
    end in
  let int :=
    match s1 with
    | String "0" rest => Some (0, rest)
    | String c _ =>
        if isDigit c then
          let '(n, _, rest) := takeDigits 0 0 s1 in Some (n, rest)
        else None
    | EmptyString => None
    end in
  match int with
  | None => None
  | Some (n, s2) =>
      match parseFraction n s2 with
      | None => None
      | Some (m, places, s3) =>
          match parseExponent s3 with
          | None => None
          | Some (e, s4) => Some (JNumber (sign * m) (e - Z.of_nat places), s4)
          end
      end
  end.

Definition hexValue (c : ascii) : option N :=
  let n := N_of_ascii c in
  if (N.leb 48 n && N.leb n 57)%bool then Some (n - 48)%N
  else if (N.leb 97 n && N.leb n 102)%bool then Some (n - 87)%N
  else if (N.leb 65 n && N.leb n 70)%bool then Some (n - 55)%N
  else None.

Definition hex4 (a b c d : ascii) : option N :=
  match hexValue a, hexValue b, hexValue c, hexValue d with
  | Some x, Some y, Some z, Some t => Some (((x * 16 + y) * 16 + z) * 16 + t)%N
  | _, _, _, _ => None
  end.

Definition byte (n : N) : ascii := ascii_of_N n.

(** The UTF-8 form of a code point. *)
Definition utf8 (cp : N) : string :=
  (if cp <? 128 then String (byte cp) ""
   else if cp <? 2048 then
     String (byte (192 + cp / 64)) (String (byte (128 + cp mod 64)) "")
   else if cp <? 65536 then
     String (byte (224 + cp / 4096))
            (String (byte (128 + (cp / 64) mod 64))
                    (String (byte (128 + cp mod 64)) ""))
   else
     String (byte (240 + cp / 262144))
            (String (byte (128 + (cp / 4096) mod 64))
                    (String (byte (128 + (cp / 64) mod 64))
                            (String (byte (128 + cp mod 64)) ""))))%N.

Definition isHighSurrogate (u : N) : bool := (N.leb 55296 u && N.leb u 56319)%bool.
Definition isLowSurrogate (u : N) : bool := (N.leb 56320 u && N.leb u 57343)%bool.

Definition flush (pending : option N) : string :=
  match pending with
  | Some hi => utf8 hi
  | None => ""
  end.

Definition unescape (c : ascii) : option ascii :=
  if Ascii.eqb c dquote then Some dquote
  else if Ascii.eqb c backslash then Some backslash
  else if Ascii.eqb c "/" then Some "/"%char
  else if Ascii.eqb c "b" then Some "008"%char
  else if Ascii.eqb c "f" then Some "012"%char
  else if Ascii.eqb c "n" then Some "010"%char
  else if Ascii.eqb c "r" then Some "013"%char
  else if Ascii.eqb c "t" then Some "009"%char
  else None.

Definition prepend (pre : string) (r : option (string * string))
  : option (string * string) :=
  match r with
  | Some (s, rest) => Some ((pre ++ s)%string, rest)
  | None => None
  end.

(** The characters of a string literal after its opening quote, up to
    the closing one. [pending] is a high surrogate written as an escape
    and still waiting for its low half. *)
Fixpoint parseChars (pending : option N) (s : string) : option (string * string) :=
  match s with
  | EmptyString => None
  | String c rest =>
      if Ascii.eqb c dquote then Some (flush pending, rest)
      else if Ascii.eqb c backslash then
        match rest with
        | String "u" (String h1 (String h2 (String h3 (String h4 rest')))) =>
            match hex4 h1 h2 h3 h4 with
            | None => None
            | Some u =>
                match pending with
                | Some hi =>
                    if isLowSurrogate u then
                      prepend (utf8 (65536 + (hi - 55296) * 1024 + (u - 56320))%N)
                              (parseChars None rest')
                    else if isHighSurrogate u then
                      prepend (utf8 hi) (parseChars (Some u) rest')
                    else prepend (utf8 hi ++ utf8 u)%string (parseChars None rest')
                | None =>
                    if isHighSurrogate u then parseChars (Some u) rest'
                    else prepend (utf8 u) (parseChars None rest')
                end
            end
        | String e rest' =>
            match unescape e with
            | Some ch => prepend (flush pending ++ String ch "")%string
                                 (parseChars None rest')
            | None => None
            end
        | EmptyString => None
        end
      else if Nat.ltb (nat_of_ascii c) 32 then None
      else prepend (flush pending ++ String c "")%string (parseChars None rest)
  end.

Definition literal (word : string) (v : value) (s : string) : option (value * string) :=
  if JsString.startsWith s word
  then Some (v, String.substring (String.length word)
                                 (String.length s - String.length word) s)
  else None.

Fixpoint parseValue (fuel : nat) (s : string) : option (value * string) :=
  match fuel with
  | O => None
  | S fuel' =>
      match skipWs s with
      | EmptyString => None
      | String c rest =>
          if Ascii.eqb c "{" then
            match skipWs rest with
            | String "}" rest' => Some (JObject [], rest')
            | _ => parseMembers fuel' [] rest
            end
          else if Ascii.eqb c "[" then
            match skipWs rest with
            | String "]" rest' => Some (JArray [], rest')
            | _ => parseItems fuel' [] rest
            end
          else if Ascii.eqb c dquote then
            match parseChars None rest with
            | Some (str, rest') => Some (JString str, rest')
            | None => None
            end
          else if Ascii.eqb c "t" then literal "true" (JBool true) (String c rest)
          else if Ascii.eqb c "f" then literal "false" (JBool false) (String c rest)
          else if Ascii.eqb c "n" then literal "null" JNull (String c rest)
          else parseNumber (String c rest)
      end
  end
with parseItems (fuel : nat) (acc : list value) (s : string)
  : option (value * string) :=
  match fuel with
  | O => None
  | S fuel' =>
      match parseValue fuel' s with
      | None => None
      | Some (v, rest) =>
          match skipWs rest with
          | String "," rest' => parseItems fuel' (v :: acc) rest'
          | String "]" rest' => Some (JArray (rev (v :: acc)), rest')
          | _ => None
          end
      end
  end
with parseMembers (fuel : nat) (acc : list (string * value)) (s : string)
  : option (value * string) :=
  match fuel with
  | O => None
  | S fuel' =>
      match skipWs s with
      | String c rest =>
          if Ascii.eqb c dquote then
            match parseChars None rest with
            | None => None
            | Some (key, rest1) =>
                match skipWs rest1 with
                | String ":" rest2 =>
                    match parseValue fuel' rest2 with
                    | None => None
                    | Some (v, rest3) =>
                        match skipWs rest3 with
                        | String "," rest4 =>
                            parseMembers fuel' (setMember key v acc) rest4
                        | String "}" rest4 =>
                            Some (JObject (setMember key v acc), rest4)
                        | _ => None
                        end
                    end
                | _ => None
                end
            end
          else None
      | EmptyString => None
      end
  end.

(** The whole text must be one value, white space around it allowed. *)
Definition parse (s : string) : option value :=
  match parseValue (2 * String.length s + 2) s with
  | Some (v, rest) =>
      match skipWs rest with
      | EmptyString => Some v
      | String _ _ => None
      end
  | None => None
  end.

End Json.

(** ** What the service operations need from the runtime *)

(** [JSON.parse] either returns a value or throws a [SyntaxError] whose
    message is the engine's own; destructuring [null] throws a
    [TypeError], again with the engine's message. *)
Record Runtime : Type := mkRuntime
  { JSON_parse : string -> Json.value + string;
    nullDestructuringMessage : string }.

(** ** src/services/geminiService.ts: the two service operations *)

Module Gemini.

(** *** Requests and responses of [ai.models.generateContent] *)

(** A part of a request. The two fields of an image part are whatever
    the parsed image data holds under those names. *)
Inductive Part : Type :=
| InlineData (mimeType data : option Json.value)
| Text (text : string).

Inductive Modality : Type := IMAGE.

Inductive Schema : Type :=
| OBJECT (properties : list (string * Schema)) (required : list string)
| INTEGER (description : string)
| STRING (description : string).

Inductive Config : Type :=
| ResponseModalities (modalities : list Modality)
| ResponseJson (responseMimeType : string) (responseSchema : Schema).

Record Request : Type := mkRequest
  { model : string;
    contents : list Part;
    config : Config }.

(** The response, with the optional fields the code reads. *)
Record Blob : Type := mkBlob
  { mimeType : option string;
    data : option string }.

Record ResponsePart : Type := mkPart
  { inlineData : option Blob;
    partText : option string }.

Record Content : Type := mkContent { parts : option (list ResponsePart) }.

Record Candidate : Type := mkCandidate { content : option Content }.

Record GenerateContentResponse : Type := mkResponse
  { candidates : option (list Candidate);
    text : option string }.

Section Service.

(** [R] is the state of the remote service, [U] the state of the caller
    that [onRetry] updates. *)
Context {R U : Type}.

Variable runtime : Runtime.
Variable service : Request -> R -> Outcome GenerateContentResponse * R.

(** The world of a service operation: the remote service, the requests
    sent to it so far, the lines written with [console.error], and the
    caller's state. *)
Record World : Type := mkWorld
  { remote : R;
    requests : list Request;
    errorLog : list (string * option string);
    ui : U }.

(** Code that reads and changes the world and may throw. *)
Definition M (A : Type) : Type := World -> Outcome A * World.

Definition ret {A : Type} (a : A) : M A := fun w => (Resolved a, w).

Definition throw {A : Type} (e : JsError) : M A := fun w => (Rejected e, w).

Definition bind {A B : Type} (m : M A) (f : A -> M B) : M B :=
  fun w =>
    match m w with
    | (Resolved a, w') => f a w'
    | (Rejected e, w') => (Rejected e, w')
    end.

Definition tryCatch {A : Type} (body : M A) (handler : JsError -> M A) : M A :=
  fun w =>
    match body w with
    | (Resolved a, w') => (Resolved a, w')
    | (Rejected e, w') => handler e w'
    end.

Definition lift {A : Type} (o : Outcome A) : M A := fun w => (o, w).

Local Notation "x <- m ;; k" := (bind m (fun x => k))
  (at level 61, m at next level, right associativity).
Local Notation "m ;;; k" := (bind m (fun _ => k))
  (at level 61, right associativity).

(** [await ai.models.generateContent(request)] *)
Definition generateContent (request : Request) : M GenerateContentResponse :=
  fun w =>
    let (o, remote') := service request (remote w) in
    (o, mkWorld remote' (requests w ++ [request]) (errorLog w) (ui w)).

Definition console_error (label : string) (arg : option string) : M unit :=
  fun w =>
    (Resolved tt,
     mkWorld (remote w) (requests w) (errorLog w ++ [(label, arg)]) (ui w)).

(** [JSON.parse(s)] *)
Definition parseJson (s : string) : Outcome Json.value :=
  match JSON_parse runtime s with
  | inl v => Resolved v
  | inr msg => Rejected (mkError SyntaxError (Some msg))
  end.

(** [const { mimeType, data } = JSON.parse(imageData);
     return { inlineData: { mimeType, data } };] *)
Definition createImagePart (imageData : string) : Outcome Part :=
  match parseJson imageData with
  | Rejected e => Rejected e
  | Resolved Json.JNull =>
      Rejected (mkError TypeError (Some (nullDestructuringMessage runtime)))
  | Resolved v =>
      Resolved (InlineData (Json.getProperty v "mimeType")
                           (Json.getProperty v "data"))
  end.

Definition styledImagePrompt : string :=
  "As an expert fashion photoshoot art director, generate a new, photorealistic image of the model from the first image wearing the clothing item from the second image. The final output should be a high-quality, professional-looking photo suitable for an e-commerce website or a fashion lookbook. Position the model in a natural pose. The background should be a clean, minimalist studio setting (e.g., light gray, off-white) to emphasize the outfit. Pay close attention to realistic details: ensure the clothing drapes and fits the model's body naturally, the lighting is soft and flattering (like from a large softbox), and the textures of the fabric are accurately rendered. The final image should ONLY contain the styled model and the background, with no extra text or artifacts.".

Definition styledImageRequest (modelImagePart clothingImagePart : Part) : Request :=
  mkRequest "gemini-2.5-flash-image"
            [modelImagePart; clothingImagePart; Text styledImagePrompt]
            (ResponseModalities [IMAGE]).

(** [response.candidates?.[0]?.content?.parts?.[0]] *)
Definition firstPart (response : GenerateContentResponse) : option ResponsePart :=
  match candidates response with
  | Some (candidate :: _) =>
      match content candidate with
      | Some c =>
          match parts c with
          | Some (p :: _) => Some p
          | _ => None
          end
      | None => None
      end
  | _ => None
  end.

(** [firstPart?.inlineData] *)
Definition inlineDataOf (part : option ResponsePart) : option Blob :=
  match part with
  | Some p => inlineData p
  | None => None
  end.

Definition noImageMessage : string :=
  "Could not generate styled image. The API did not return an image.".

(** The thunk that [generateStyledImage] hands to the orchestrator. *)
Definition styledImageCall (modelImage clothingImage : string) : M string :=
  modelImagePart <- lift (createImagePart modelImage) ;;
  clothingImagePart <- lift (createImagePart clothingImage) ;;
  response <- generateContent (styledImageRequest modelImagePart clothingImagePart) ;;
  match inlineDataOf (firstPart response) with
  | Some blob =>
      ret (Json.stringifyObject [("mimeType", mimeType blob); ("data", data blob)])
  | None => throw (new_Error noImageMessage)
  end.

(** The caller's callback only touches the caller's state. *)
Definition withUi (f : Z -> U -> U) (attempt : Z) (w : World) : World :=
  mkWorld (remote w) (requests w) (errorLog w) (f attempt (ui w)).

Definition generateStyledImage (modelImage clothingImage : string)
           (onRetry : option (Z -> U -> U)) (w : World) : Retry.Run World string :=
  Retry.callGeminiWithRetry (styledImageCall modelImage clothingImage)
                            (option_map withUi onRetry) w.

Definition trendPrompt : string :=
  "You are a professional fashion trend forecaster. Analyze this image. Based on current global fashion trends (e.g., color palettes, silhouettes, fabrics, Y2K revival, minimalist aesthetics, streetwear influences), provide a trend score from 0 to 100. Also, provide a brief, insightful analysis (2-3 sentences) explaining the score. Highlight trendy elements and suggest potential improvements for marketability.".

Definition trendSchema : Schema :=
  OBJECT [("score", INTEGER "The trend score from 0 to 100.");
          ("analysis", STRING "A brief analysis of the fashion trend.")]
         ["score"; "analysis"].

Definition trendRequest (imagePart : Part) : Request :=
  mkRequest "gemini-2.5-pro"
            [imagePart; Text trendPrompt]
            (ResponseJson "application/json" trendSchema).

Definition invalidFormatMessage : string :=
  "Failed to analyze trend. The API returned an invalid format.".

(** [response.text.trim()]: a [TypeError] when there is no text. Its
    message is never read, the [catch] around it ignores the error. *)
Definition trimmedText (response : GenerateContentResponse) : Outcome string :=
  match text response with
  | Some t => Resolved (JsString.trim t)
  | None => Rejected (mkError TypeError None)
  end.

(** The thunk that [analyzeTrend] hands to the orchestrator. The result
    is the parsed value as it is: the cast to [TrendAnalysisResult] is a
    compile-time annotation. *)
Definition trendCall (generatedImage : string) : M Json.value :=
  imagePart <- lift (createImagePart generatedImage) ;;
  response <- generateContent (trendRequest imagePart) ;;
  tryCatch
    (jsonText <- lift (trimmedText response) ;;
     result <- lift (parseJson jsonText) ;;
     ret result)
    (fun _ =>
       console_error "Failed to parse JSON response:" (text response) ;;;
       throw (new_Error invalidFormatMessage)).

Definition analyzeTrend (generatedImage : string)
           (onRetry : option (Z -> U -> U)) (w : World) : Retry.Run World Json.value :=
  Retry.callGeminiWithRetry (trendCall generatedImage)
                            (option_map withUi onRetry) w.

End Service.

Arguments World : clear implicits.

End Gemini.

(** ** src/components and the unnamed component files: their pure parts *)

Module Ui.

(** [s.split(sep)] for a separator of one character: the pieces between
    the separators, at least one. *)
Fixpoint split (sep : ascii) (s : string) : list string :=
  match s with
  | EmptyString => [EmptyString]
  | String c rest =>
      if Ascii.eqb c sep then EmptyString :: split sep rest
      else match split sep rest with
           | piece :: pieces => String c piece :: pieces
           | [] => [String c EmptyString]
           end
  end.

(** ImageUploader and AddItemForm, [handleFileChange]: what is taken out
    of the data URL [base64] that the file encoder returns.
    [base64.split(';')[0].split(':')[1]] and [base64.split(',')[1]]; an
    index past the end of an array gives undefined. *)
Definition mimeTypeOf (base64 : string) : option string :=
  match nth_error (split ";" base64) 0 with
  | Some head => nth_error (split ":" head) 1
  | None => None
  end.

Definition dataOf (base64 : string) : option string :=
  nth_error (split "," base64) 1.

(** [JSON.stringify({mimeType, data})], the string handed to
    [onImageUpload] and stored as [imageData]. *)
Definition imageDataOf (base64 : string) : string :=
  Json.stringifyObject [("mimeType", mimeTypeOf base64); ("data", dataOf base64)].

(** The template [data:${parsed.mimeType};base64,${parsed.data}] of
    ClothingSelector, App and ResultDisplay, for fields that are strings. *)
Definition dataUrl (mimeType data : string) : string :=
  ("data:" ++ mimeType ++ ";base64," ++ data)%string.

(** ResultDisplay, [handleDownload]:
    [parsedImage.mimeType.split('/')[1] || 'png'] and the file name. *)
Definition extension (mimeType : string) : string :=
  JsString.orElse (nth_error (split "/" mimeType) 1) "png".

Definition downloadName (mimeType : string) : string :=
  ("trendlens-ai-outfit." ++ extension mimeType)%string.

(** A clothing item. Its declaration is in data/clothingItems, which is
    not among the sources; these are the fields the code reads and
    writes. *)
Record ClothingItem : Type := mkItem
  { id : Z;
    name : string;
    category : string;
    imageData : string }.

(** [Array.from(new Set(xs))]: the elements in the order of their first
    occurrence. *)
Fixpoint addAll (seen xs : list string) : list string :=
  match xs with
  | [] => seen
  | x :: rest =>
      if existsb (String.eqb x) seen then addAll seen rest
      else addAll (seen ++ [x]) rest
  end.

Definition setToArray (xs : list string) : list string := addAll [] xs.

(** ClothingSelector: the category buttons and the items shown. *)
Definition categories (items : list ClothingItem) : list string :=
  "All" :: setToArray (map category items).

Definition filteredItems (selectedCategory : string) (items : list ClothingItem)
  : list ClothingItem :=
  if String.eqb selectedCategory "All" then items
  else filter (fun item => String.eqb (category item) selectedCategory) items.

(** A JavaScript number: a finite one is a rational. *)
Inductive JsNumber : Type :=
| Num (q : QArith_base.Q)
| NaN
| PosInfinity
| NegInfinity.

(** [x > bound] for an integer literal [bound]. *)
Definition gt (x : JsNumber) (bound : Z) : bool :=
  match x with
  | Num q => negb (QArith_base.Qle_bool q (QArith_base.inject_Z bound))
  | PosInfinity => true
  | NaN => false
  | NegInfinity => false
  end.

(** TrendScoreGauge: the colour of the gauge. *)
Definition scoreColor (score : JsNumber) : string :=
  if gt score 80 then "#4ade80"
  else if gt score 60 then "#facc15"
  else if gt score 40 then "#fb923c"
  else "#f87171".

End Ui.

(** ** src/App.tsx: the state of the application and its handlers *)

Module App.

Import Ui.

(** The state held in the [useState] hooks of [App]. *)
Record State : Type := mkState
  { modelImage : option string;
    selectedClothing : option string;
    selectedClothingId : option Z;
    generatedImage : option string;
    trendResult : option Json.value;
    isLoading : bool;
    loadingMessage : string;
    error : option string;
    items : list ClothingItem }.

Definition setModelImage (v : option string) (s : State) : State :=
  mkState v (selectedClothing s) (selectedClothingId s) (generatedImage s)
          (trendResult s) (isLoading s) (loadingMessage s) (error s) (items s).

Definition setSelectedClothing (v : option string) (s : State) : State :=
  mkState (modelImage s) v (selectedClothingId s) (generatedImage s)
          (trendResult s) (isLoading s) (loadingMessage s) (error s) (items s).

Definition setSelectedClothingId (v : option Z) (s : State) : State :=
  mkState (modelImage s) (selectedClothing s) v (generatedImage s)
          (trendResult s) (isLoading s) (loadingMessage s) (error s) (items s).

Definition setGeneratedImage (v : option string) (s : State) : State :=
  mkState (modelImage s) (selectedClothing s) (selectedClothingId s) v
          (trendResult s) (isLoading s) (loadingMessage s) (error s) (items s).

Definition setTrendResult (v : option Json.value) (s : State) : State :=
  mkState (modelImage s) (selectedClothing s) (selectedClothingId s)
          (generatedImage s) v (isLoading s) (loadingMessage s) (error s) (items s).

Definition setIsLoading (v : bool) (s : State) : State :=
  mkState (modelImage s) (selectedClothing s) (selectedClothingId s)
          (generatedImage s) (trendResult s) v (loadingMessage s) (error s) (items s).

Definition setLoadingMessage (v : string) (s : State) : State :=
  mkState (modelImage s) (selectedClothing s) (selectedClothingId s)
          (generatedImage s) (trendResult s) (isLoading s) v (error s) (items s).

Definition setError (v : option string) (s : State) : State :=
  mkState (modelImage s) (selectedClothing s) (selectedClothingId s)
          (generatedImage s) (trendResult s) (isLoading s) (loadingMessage s) v
          (items s).

Definition setItems (f : list ClothingItem -> list ClothingItem) (s : State) : State :=
  mkState (modelImage s) (selectedClothing s) (selectedClothingId s)
          (generatedImage s) (trendResult s) (isLoading s) (loadingMessage s)
          (error s) (f (items s)).

(** An item as the form hands it over, without its id. *)
Record NewItem : Type := mkNewItem
  { newName : string;
    newCategory : string;
    newImageData : string }.

(** [now] is the value of [Date.now()]. *)
Definition handleAddItem (now : Z) (item : NewItem) (s : State) : State :=
  let newItem := mkItem now (newName item) (newCategory item) (newImageData item) in
  setItems (fun prevItems => newItem :: prevItems) s.

Definition handleStartOver (s : State) : State :=
  setIsLoading false (setError None (setTrendResult None (setGeneratedImage None s))).

Definition handleModelImageUpload (image : string) (s : State) : State :=
  handleStartOver (setModelImage (Some image) s).

Definition handleClothingSelect (id : Z) (imageData : string) (s : State) : State :=
  handleStartOver (setSelectedClothing (Some imageData) (setSelectedClothingId (Some id) s)).

(** [selectedClothingId === idToRemove] *)
Definition isSelected (s : State) (idToRemove : Z) : bool :=
  match selectedClothingId s with
  | Some i => Z.eqb i idToRemove
  | None => false
  end.

Definition handleRemoveItem (idToRemove : Z) (s : State) : State :=
  let s1 := setItems (filter (fun item => negb (Z.eqb (id item) idToRemove))) s in
  let s2 := if isSelected s idToRemove
            then setSelectedClothingId None (setSelectedClothing None s1)
            else s1 in
  handleStartOver s2.

(** [!v] for a string or null. *)
Definition missing (v : option string) : bool :=
  match v with
  | Some (String _ _) => false
  | _ => true
  end.

(** What the application adds to the world of a service operation: its
    state, and the errors it writes with [console.error]. *)
Record Client : Type := mkClient
  { app : State;
    logged : list JsError }.

Definition retryingMessage (what : string) (attempt : Z) : string :=
  ("High demand. Retrying " ++ what ++ "... (Attempt "
     ++ JsString.ofInteger attempt ++ "/2)")%string.

Definition update (f : State -> State) (c : Client) : Client :=
  mkClient (f (app c)) (logged c).

Section Handlers.

Context {R : Type}.
Variable runtime : Runtime.
Variable service :
  Gemini.Request -> R -> Outcome Gemini.GenerateContentResponse * R.

Definition onClient (f : Client -> Client) (w : Gemini.World R Client)
  : Gemini.World R Client :=
  Gemini.mkWorld (Gemini.remote w) (Gemini.requests w) (Gemini.errorLog w)
                 (f (Gemini.ui w)).

(** The [catch] blocks of the two handlers. *)
Definition report (fallback : string) (err : JsError) (c : Client) : Client :=
  let c1 := mkClient (app c) (logged c ++ [err]) in
  if instanceofApiError err then update (setError (message err)) c1
  else update (setError (Some fallback)) c1.

(** [handleGenerateImage], run to its end with no other event handled in
    between. *)
Definition handleGenerateImage (w : Gemini.World R Client) : Gemini.World R Client :=
  let s := app (Gemini.ui w) in
  if (missing (modelImage s) || missing (selectedClothing s))%bool then
    onClient (update (setError
                        (Some "Please upload a model image and select a clothing item.")))
             w
  else
    let w1 :=
      onClient (update (fun s =>
                          setTrendResult None
                            (setGeneratedImage None
                               (setError None
                                  (setLoadingMessage "Generating your look..."
                                     (setIsLoading true s))))))
               w in
    let r :=
      Gemini.generateStyledImage
        runtime service
        (match modelImage s with Some v => v | None => "" end)
        (match selectedClothing s with Some v => v | None => "" end)
        (Some (fun attempt =>
                 update (setLoadingMessage (retryingMessage "image generation" attempt))))
        w1 in
    let w2 :=
      match Retry.outcome r with
      | Resolved newImageBase64 =>
          onClient (update (setGeneratedImage (Some newImageBase64))) (Retry.final r)
      | Rejected err =>
          onClient (report "An unexpected error occurred. Please check the console for details." err)
                   (Retry.final r)
      end in
    onClient (update (setIsLoading false)) w2.

(** [handleAnalyzeTrend], likewise. *)
Definition handleAnalyzeTrend (w : Gemini.World R Client) : Gemini.World R Client :=
  let s := app (Gemini.ui w) in
  if missing (generatedImage s) then w
  else
    let w1 :=
      onClient (update (fun s =>
                          setError None
                            (setLoadingMessage "Analyzing the trend..."
                               (setIsLoading true s))))
               w in
    let r :=
      Gemini.analyzeTrend
        runtime service
        (match generatedImage s with Some v => v | None => "" end)
        (Some (fun attempt =>
                 update (setLoadingMessage (retryingMessage "trend analysis" attempt))))
        w1 in
    let w2 :=
      match Retry.outcome r with
      | Resolved analysisResult =>
          onClient (update (setTrendResult (Some analysisResult))) (Retry.final r)
      | Rejected err =>
          onClient (report "An unexpected error occurred during analysis. Please try again." err)
                   (Retry.final r)
      end in
    onClient (update (setIsLoading false)) w2.

End Handlers.

(** [canGenerate] and what the output panel shows, [renderOutputContent]. *)
Definition canGenerate (s : State) : bool :=
  (negb (missing (modelImage s)) && negb (missing (selectedClothing s))
   && negb (isLoading s))%bool.

Inductive View : Type :=
| Spinner (message : string)
| ErrorPanel (message : string)
| Result (image : string) (analysis : Json.value)
| Preview (image : string) (errorLine : option string)
| Placeholder.

Definition shown (v : option string) : option string :=
  match v with
  | Some (String c r) => Some (String c r)
  | _ => None
  end.

(** Whether a parsed JSON value counts as true in a condition. *)
Definition truthy (v : Json.value) : bool :=
  match v with
  | Json.JNull => false
  | Json.JBool b => b
  | Json.JNumber m _ => negb (Z.eqb m 0)
  | Json.JString EmptyString => false
  | Json.JString (String _ _) => true
  | Json.JArray _ => true
  | Json.JObject _ => true
  end.

Definition shownResult (v : option Json.value) : option Json.value :=
  match v with
  | Some result => if truthy result then Some result else None
  | None => None
  end.

Definition renderOutputContent (s : State) : View :=
  if isLoading s then Spinner (loadingMessage s)
  else
    match shown (error s), shown (generatedImage s), shownResult (trendResult s) with
    | Some e, None, _ => ErrorPanel e
    | _, Some image, Some result => Result image result
    | e, Some image, None => Preview image e
    | None, None, _ => Placeholder
    end.

End App.

(** ** callGeminiWithRetry once its annotations are erased

    The annotations of the orchestrator, [e as Error] and
    [onRetry?: (attempt: number) => void], are gone when the program
    runs. A thunk can throw any value, and the catch block reads
    [lastError.message] and calls [toLowerCase] on it, which fails on a
    value that has no such property to read or whose message is not a
    string; the callback is called inside the catch block, unguarded,
    and can throw as well. [Retry] is the orchestrator on thunks that
    throw values whose message is a string or undefined, with callbacks
    that return; [RetryAny] is the same code on any thrown value and any
    callback. *)

Module Thrown.

(** The [message] property of a thrown value, as the catch block finds
    it. [Other] is a value that is neither undefined, null nor a string
    and has no [toLowerCase] method: a number, a boolean, a plain
    object; [shown] is what [String(message)] makes of it. *)
Inductive Message : Type :=
| Undefined
| Null
| Str (s : string)
| Other (shown : string).

(** A thrown value: [null] or [undefined]; a primitive (string, number,
    boolean, ...), of which only its truthiness matters here; or an
    object with its class and its [message]. The message is a plain
    property: objects that compute it when it is read (an accessor, a
    proxy), and messages that bring a [toLowerCase] method of their own,
    are left out. *)
Inductive Value : Type :=
| Nullish
| Primitive (truthy : bool)
| Object (cls : ErrorClass) (message : Message).

(** An error as [Errors] has it, as a thrown value. *)
Definition ofError (e : JsError) : Value :=
  Object (Errors.cls e)
         (match Errors.message e with
          | Some s => Str s
          | None => Undefined
          end).

(** [v instanceof ApiError] *)
Definition instanceofApiError (v : Value) : bool :=
  match v with
  | Object (ApiError | RateLimitError | InvalidInputError | ServerError) _ => true
  | _ => false
  end.

(** [v || ...]: is [v] truthy? *)
Definition truthy (v : Value) : bool :=
  match v with
  | Nullish => false
  | Primitive t => t
  | Object _ _ => true
  end.

(** How a call completes: it returns, or it throws. *)
Inductive Completion (A : Type) : Type :=
| Normal (v : A)
| Throw (v : Value).

Arguments Normal {A} v.
Arguments Throw {A} v.

Definition ofOutcome {A : Type} (o : Outcome A) : Completion A :=
  match o with
  | Resolved v => Normal v
  | Rejected e => Throw (ofError e)
  end.

End Thrown.

Module RetryAny.

Import Thrown.

Section Orchestrator.

Context {W T : Type}.

Record Run : Type := mkRun
  { outcome : Completion T;
    final : W;
    trace : list Event }.

(** The message of the [TypeError] that the engine raises when the
    message of [lastError] cannot be read or lower-cased. *)
Variable typeErrorText : Value -> string.

Variable apiCall : W -> Completion T * W.
Variable onRetry : option (Z -> W -> Completion unit * W).

(** [onRetry?.(attempt)]. The call is not awaited: a callback that hands
    back a promise has returned. *)
Definition callOnRetry (attempt : Z) (w : W) : (Completion unit * W) * list Event :=
  match onRetry with
  | Some f => (f attempt w, [EvOnRetry attempt])
  | None => ((Normal tt, w), [])
  end.

Definition after (evs : list Event) (r : Run) : Run :=
  mkRun (outcome r) (final r) (evs ++ trace r).

(** [lastError.message]: there is nothing to read on [null] and
    [undefined] ([None]); a primitive has no such property. *)
Definition messageOf (lastError : Value) : option Message :=
  match lastError with
  | Nullish => None
  | Primitive _ => Some Undefined
  | Object _ m => Some m
  end.

(** [lastError.message?.toLowerCase() || '']: [None] when evaluating it
    throws. *)
Definition errorMessage (lastError : Value) : option string :=
  match messageOf lastError with
  | None => None
  | Some Undefined => Some ""
  | Some Null => Some ""
  | Some (Str s) => Some (JsString.orElse (Some (JsString.toLowerCase s)) "")
  | Some (Other _) => None
  end.

Definition typeError (lastError : Value) : Value :=
  Object TypeError (Str (typeErrorText lastError)).

(** [new ApiError(lastError.message)]: the constructor of [Error] leaves
    the message empty for [undefined] and converts anything else to a
    string. *)
Definition wrapped (lastError : Value) : Value :=
  ofError
    (new_ApiError
       (match messageOf lastError with
        | Some (Str s) => Some s
        | Some Null => Some "null"
        | Some (Other shown) => Some shown
        | Some Undefined => None
        | None => None
        end)).

Definition unknownError : Value :=
  ofError (new_ApiError (Some "An unknown error occurred after multiple retries.")).

(** The body of the [for] loop, as in [Retry.attempts]. *)
Fixpoint attempts (remaining : nat) (attempt : Z) (lastError : option Value)
         (w : W) : Run :=
  match remaining with
  | O =>
      mkRun (Throw
               (match lastError with
                | Some e => if truthy e then e else unknownError
                | None => unknownError
                end))
            w []
  | S remaining' =>
      match apiCall w with
      | (Normal v, w1) => mkRun (Normal v) w1 [EvCall]
      | (Throw e, w1) =>
          match errorMessage e with
          | None => mkRun (Throw (typeError e)) w1 [EvCall]
          | Some msg =>
              let rate := Retry.isRateLimitError msg in
              let server := Retry.isServerError msg in
              let invalid := Retry.isInvalidInputError msg in
              if invalid then
                mkRun (Throw (ofError (new_InvalidInputError
                                         (Some Retry.invalidInputNotice))))
                      w1 [EvCall]
              else if (rate || server) && (attempt <? Retry.MAX_RETRIES) then
                let delay := Retry.backoffDelay attempt in
                match callOnRetry attempt w1 with
                | ((Throw thrown, w2), called) =>
                    mkRun (Throw thrown) w2 (EvCall :: called)
                | ((Normal _, w2), called) =>
                    after (EvCall :: called
                             ++ [EvWarn (Retry.warnLine attempt delay); EvSleep delay])
                          (attempts remaining' (attempt + 1) (Some e) w2)
                end
              else if rate then
                mkRun (Throw (ofError (new_RateLimitError None))) w1 [EvCall]
              else if server then
                mkRun (Throw (ofError (new_ServerError None))) w1 [EvCall]
              else mkRun (Throw (wrapped e)) w1 [EvCall]
          end
      end
  end.

Definition callGeminiWithRetry (w : W) : Run :=
  attempts (Z.to_nat Retry.MAX_RETRIES) 1 None w.

End Orchestrator.

Arguments Run : clear implicits.

(** A thunk and a callback of [Retry], and a run of it, as they are
    here. *)
Definition ofThunk {W T : Type} (apiCall : W -> Outcome T * W)
  : W -> Completion T * W :=
  fun w => (ofOutcome (fst (apiCall w)), snd (apiCall w)).

Definition ofCallback {W : Type} (f : Z -> W -> W) : Z -> W -> Completion unit * W :=
  fun attempt w => (Normal tt, f attempt w).

Definition ofRun {W T : Type} (r : Retry.Run W T) : Run W T :=
  mkRun (ofOutcome (Retry.outcome r)) (Retry.final r) (Retry.trace r).

End RetryAny.

(* ================================================================== *)
(** * Part II: vocabulary of the properties                            *)
(* ================================================================== *)

Module Spec.

(** [needle] occurs in [msg] up to the case of letters: some substring
    of [msg] lower-cases to [needle]. *)
Definition ContainsCI (msg needle : string) : Prop :=
  exists pre mid post,
    msg = (pre ++ mid ++ post)%string /\ JsString.toLowerCase mid = needle.

(** The text of a failure: its message, empty when there is none. *)
Definition textOf (e : JsError) : string :=
  match message e with
  | Some m => m
  | None => ""
  end.

Definition RateLimitText (m : string) : Prop :=
  ContainsCI m "429" \/ ContainsCI m "quota" \/ ContainsCI m "resource_exhausted".

Definition ServerText (m : string) : Prop :=
  ContainsCI m "500" \/ ContainsCI m "503" \/ ContainsCI m "service unavailable".

Definition InvalidInputText (m : string) : Prop :=
  ContainsCI m "400" \/ ContainsCI m "invalid argument".

(** A failure that is retried while attempts remain. *)
Definition Retriable (m : string) : Prop :=
  (RateLimitText m \/ ServerText m) /\ ~ InvalidInputText m.

(** Projections of a trace. *)
Definition isCall (ev : Event) : bool :=
  match ev with
  | EvCall => true
  | _ => false
  end.

Definition calls (tr : list Event) : nat := length (filter isCall tr).

Fixpoint onRetryArgs (tr : list Event) : list Z :=
  match tr with
  | [] => []
  | EvOnRetry k :: rest => k :: onRetryArgs rest
  | _ :: rest => onRetryArgs rest
  end.

Fixpoint sleeps (tr : list Event) : list Z :=
  match tr with
  | [] => []
  | EvSleep ms :: rest => ms :: sleeps rest
  | _ :: rest => sleeps rest
  end.



Definition total (l : list Z) : Z := fold_right Z.add 0 l.

(** [a; a+1; ...], [n] of them. *)
Fixpoint zseq (a : Z) (n : nat) : list Z :=
  match n with
  | O => []
  | S m => a :: zseq (a + 1) m
  end.

Section Runs.

Context {W T : Type}.
Variable apiCall : W -> Outcome T * W.
Variable onRetry : option (Z -> W -> W).

Definition onRetryEvents (j : Z) : list Event :=
  match onRetry with
  | Some _ => [EvOnRetry j]
  | None => []
  end.

(** What a retried attempt [j] leaves in the trace. *)
Definition retrySegment (j : Z) : list Event :=
  EvCall :: onRetryEvents j
    ++ [EvWarn (Retry.warnLine j (Retry.backoffDelay j));
        EvSleep (Retry.backoffDelay j)].

Definition retrySegments (a : Z) (n : nat) : list Event :=
  flat_map retrySegment (zseq a n).

(** [AttemptStarts w0 k w]: in the run started in world [w0], attempt
    number [k] takes place, and it starts in world [w]. The first attempt
    always takes place; attempt [k + 1] takes place when attempt [k]
    failed with a retriable message and was not the last one allowed. *)
Inductive AttemptStarts (w0 : W) : Z -> W -> Prop :=
| starts_first : AttemptStarts w0 1 w0
| starts_next (k : Z) (w : W) (e : JsError) (w1 : W) :
    AttemptStarts w0 k w ->
    apiCall w = (Rejected e, w1) ->
    Retriable (textOf e) ->
    k < Retry.MAX_RETRIES ->
    AttemptStarts w0 (k + 1) (fst (Retry.callOnRetry onRetry k w1)).

End Runs.

(** The words of the specification about responses. *)

(** A content part with inline image data: mime type and encoded bytes. *)
Definition carriesImage (p : Gemini.ResponsePart) : bool :=
  match Gemini.inlineData p with
  | Some (Gemini.mkBlob (Some _) (Some _)) => true
  | _ => false
  end.

Definition partsOf (c : Gemini.Candidate) : list Gemini.ResponsePart :=
  match Gemini.content c with
  | Some (Gemini.mkContent (Some ps)) => ps
  | _ => []
  end.

(** The response contains at least one content part with inline image
    data. *)
Definition hasImagePart (response : Gemini.GenerateContentResponse) : bool :=
  existsb (fun c => existsb carriesImage (partsOf c))
          (match Gemini.candidates response with
           | Some cs => cs
           | None => []
           end).

(** The integer a JSON number denotes, when it denotes one. *)
Definition integerValue (mantissa exponent : Z) : option Z :=
  if 0 <=? exponent then Some (mantissa * 10 ^ exponent)
  else if mantissa mod 10 ^ (- exponent) =? 0
       then Some (mantissa / 10 ^ (- exponent))
       else None.

(** TrendAnalysisResult: [{ score: integer in [0,100], analysis: string }]. *)
Definition matchesTrendSchema (v : Json.value) : bool :=
  match Json.getProperty v "score", Json.getProperty v "analysis" with
  | Some (Json.JNumber m e), Some (Json.JString _) =>
      match integerValue m e with
      | Some n => (0 <=? n) && (n <=? 100)
      | None => false
      end
  | _, _ => false
  end.

End Spec.

(** ** Scripted thunks, for concrete runs *)

Module Stub.

(** A thunk that answers its [n]-th invocation (counted from 0) with the
    [n]-th entry of a script, and with [otherwise] once the script is
    used up. Its world is the number of invocations made so far. *)
Definition scripted {T : Type} (script : list (Outcome T)) (otherwise : Outcome T)
           (n : nat) : Outcome T * nat :=
  (nth n script otherwise, S n).

Definition fails {T : Type} (msg : string) : Outcome T :=
  Rejected (new_Error msg).

(** A remote service that answers its [n]-th request from a script,
    whatever the request. *)
Definition answering (script : list (Outcome Gemini.GenerateContentResponse))
           (otherwise : Outcome Gemini.GenerateContentResponse)
           (request : Gemini.Request) (n : nat)
  : Outcome Gemini.GenerateContentResponse * nat :=
  (nth n script otherwise, S n).

(** A runtime whose [JSON.parse] is the reference parser. *)
Definition runtime : Runtime :=
  mkRuntime (fun s => match Json.parse s with
                      | Some v => inl v
                      | None => inr "Unexpected token in JSON"
                      end)
            "Cannot destructure property 'mimeType' of null".



(** JSON texts are written here with apostrophes for the double quotes. *)
Fixpoint quotes (s : string) : string :=
  match s with
  | EmptyString => EmptyString
  | String c rest =>
      String (if Ascii.eqb c "'" then Json.dquote else c) (quotes rest)
  end.

(** The start of a service operation: nothing requested, nothing
    logged. *)
Definition fresh : Gemini.World nat unit := Gemini.mkWorld 0%nat [] [] tt.

Definition pngImage : string := quotes "{'mimeType':'image/png','data':'abc123'}".

(** The request part made from [pngImage]. *)
Definition pngPart : Gemini.Part :=
  Gemini.InlineData (Some (Json.JString "image/png")) (Some (Json.JString "abc123")).

(** The world after [n] requests [request] have been answered. *)
Definition afterRequests (n : nat) (request : Gemini.Request) : Gemini.World nat unit :=
  Gemini.mkWorld n (repeat request n) [] tt.

Definition withParts (ps : list Gemini.ResponsePart) (t : option string)
  : Gemini.GenerateContentResponse :=
  Gemini.mkResponse
    (Some [Gemini.mkCandidate (Some (Gemini.mkContent (Some ps)))]) t.

Definition pngBlob : Gemini.Blob := Gemini.mkBlob (Some "image/png") (Some "abc123").

(** A response whose only part is an image. *)
Definition imageResponse : Gemini.GenerateContentResponse :=
  withParts [Gemini.mkPart (Some pngBlob) None] None.

(** A response that says something first and gives the image second. *)
Definition captionedImageResponse : Gemini.GenerateContentResponse :=
  withParts [Gemini.mkPart None (Some "Here is the styled photo.");
             Gemini.mkPart (Some pngBlob) None]
            (Some "Here is the styled photo.").

(** A response that is only text. *)
Definition textResponse (t : string) : Gemini.GenerateContentResponse :=
  withParts [Gemini.mkPart None (Some t)] (Some t).

End Stub.

(** ** Vocabulary of the further properties *)

Module SpecMore.

(** Two worlds of a service operation that differ at most in the
    caller's state: the remote service, the requests sent and the error
    log agree. *)
Definition sameService {R U : Type} (w w' : Gemini.World R U) : Prop :=
  Gemini.remote w = Gemini.remote w' /\
  Gemini.requests w = Gemini.requests w' /\
  Gemini.errorLog w = Gemini.errorLog w'.

(** The character [c] does not occur in [s]. *)
Fixpoint Lacks (c : ascii) (s : string) : Prop :=
  match s with
  | EmptyString => True
  | String x rest => x <> c /\ Lacks c rest
  end.

(** What can happen to the state of the application: the handlers of the
    user's actions, and the setters that the two asynchronous handlers
    and their [onRetry] callbacks call, each taken as one step. *)
Inductive Action : Type :=
| AddItem (now : Z) (item : App.NewItem)
| RemoveItem (idToRemove : Z)
| SelectItem (item : Ui.ClothingItem)
| UploadModel (image : string)
| StartOver
| SetLoadingMessage (m : string)
| SetError (e : option string)
| SetGeneratedImage (g : option string)
| SetTrendResult (t : option Json.value)
| SetIsLoading (b : bool).

Definition perform (a : Action) (s : App.State) : App.State :=
  match a with
  | AddItem now item => App.handleAddItem now item s
  | RemoveItem i => App.handleRemoveItem i s
  | SelectItem item => App.handleClothingSelect (Ui.id item) (Ui.imageData item) s
  | UploadModel image => App.handleModelImageUpload image s
  | StartOver => App.handleStartOver s
  | SetLoadingMessage m => App.setLoadingMessage m s
  | SetError e => App.setError e s
  | SetGeneratedImage g => App.setGeneratedImage g s
  | SetTrendResult t => App.setTrendResult t s
  | SetIsLoading b => App.setIsLoading b s
  end.

(** The gallery offers the items of the library for selection, no
    others. *)
Definition offered (s : App.State) (a : Action) : Prop :=
  match a with
  | SelectItem item => In item (App.items s)
  | _ => True
  end.

Inductive Reachable (init : App.State) : App.State -> Prop :=
| reach_init : Reachable init init
| reach_step (s : App.State) (a : Action) :
    Reachable init s -> offered s a -> Reachable init (perform a s).

(** The selection is empty, or it is the id and the image data of an
    item of the library. *)
Definition SelectionValid (s : App.State) : Prop :=
  match App.selectedClothingId s, App.selectedClothing s with
  | None, None => True
  | Some i, Some d =>
      exists item, In item (App.items s) /\ Ui.id item = i /\ Ui.imageData item = d
  | _, _ => False
  end.

(** The client's state with the loading message blanked out: what the
    [onRetry] callbacks of the two handlers leave untouched. *)
Definition forgetMessage (c : App.Client) : App.Client :=
  App.mkClient (App.setLoadingMessage "" (App.app c)) (App.logged c).

(** The handlers of the asynchronous operations never touch these. *)
Definition sameInputs (s s' : App.State) : Prop :=
  App.modelImage s' = App.modelImage s /\
  App.selectedClothing s' = App.selectedClothing s /\
  App.selectedClothingId s' = App.selectedClothingId s /\
  App.items s' = App.items s.

(** The JSON text of one member whose value is a string, followed by
    [tail]. *)
Definition memberText (key v tail : string) : string :=
  String Json.dquote
         (Json.quoteChars key
            ++ String Json.dquote
                 (String ":"
                    (String Json.dquote
                            (Json.quoteChars v ++ String Json.dquote tail))))%string.

(** The member of a parsed object for a field that was defined. *)
Definition present (key : string) (v : option string) : list (string * Json.value) :=
  match v with
  | Some s => [(key, Json.JString s)]
  | None => []
  end.

(** The text that the orchestrator classifies for a thrown value: its
    message when that is a string, the empty text when the value has no
    message or a null one. *)
Inductive TextOf : Thrown.Value -> string -> Prop :=
| text_of_string (c : ErrorClass) (s : string) :
    TextOf (Thrown.Object c (Thrown.Str s)) s
| text_of_undefined (c : ErrorClass) :
    TextOf (Thrown.Object c Thrown.Undefined) ""
| text_of_null (c : ErrorClass) :
    TextOf (Thrown.Object c Thrown.Null) ""
| text_of_primitive (t : bool) :
    TextOf (Thrown.Primitive t) "".

(** The thrown values on which the catch block itself fails. *)
Inductive Unreadable : Thrown.Value -> Prop :=
| unreadable_nullish : Unreadable Thrown.Nullish
| unreadable_message (c : ErrorClass) (shown : string) :
    Unreadable (Thrown.Object c (Thrown.Other shown)).

(** A thrown value that is an [ApiError] or one of its subclasses and
    has a string for its message. *)
Definition IsApiError (v : Thrown.Value) : Prop :=
  exists c m,
    v = Thrown.Object c (Thrown.Str m) /\
    (c = ApiError \/ c = RateLimitError \/ c = InvalidInputError \/ c = ServerError).

Section RunsAny.

Context {W T : Type}.
Variable apiCall : W -> Thrown.Completion T * W.
Variable onRetry : option (Z -> W -> Thrown.Completion unit * W).

(** [Returns k w w']: the callback, if there is one, returns when called
    with [k] in world [w], and leaves world [w']. *)
Definition Returns (k : Z) (w w' : W) : Prop :=
  match onRetry with
  | Some f => f k w = (Thrown.Normal tt, w')
  | None => w' = w
  end.

(** As [Spec.AttemptStarts]: attempt [k + 1] takes place when attempt
    [k] failed with a value whose text is retriable, was not the last
    one allowed, and the callback returned. *)
Inductive AttemptStartsAny (w0 : W) : Z -> W -> Prop :=
| starts_any_first : AttemptStartsAny w0 1 w0
| starts_any_next (k : Z) (w : W) (e : Thrown.Value) (text : string) (w1 w2 : W) :
    AttemptStartsAny w0 k w ->
    apiCall w = (Thrown.Throw e, w1) ->
    TextOf e text ->
    Spec.Retriable text ->
    k < Retry.MAX_RETRIES ->
    Returns k w1 w2 ->
    AttemptStartsAny w0 (k + 1) w2.

Definition onRetryEventsAny (j : Z) : list Event :=
  match onRetry with
  | Some _ => [EvOnRetry j]
  | None => []
  end.

(** What a retried attempt [j] leaves in the trace, and what the
    retried attempts [a], [a + 1], ... leave, [n] of them. *)
Definition retrySegmentAny (j : Z) : list Event :=
  EvCall :: onRetryEventsAny j
    ++ [EvWarn (Retry.warnLine j (Retry.backoffDelay j));
        EvSleep (Retry.backoffDelay j)].

Definition retrySegmentsAny (a : Z) (n : nat) : list Event :=
  flat_map retrySegmentAny (Spec.zseq a n).

End RunsAny.

(** The colours of the gauge, from worst to best. *)
Definition colourRank (colour : string) : nat :=
  if String.eqb colour "#4ade80" then 3
  else if String.eqb colour "#facc15" then 2
  else if String.eqb colour "#fb923c" then 1
  else 0.

End SpecMore.

(** ** A small library and a starting state, for concrete runs *)

Module StubMore.

Definition jacket : Ui.ClothingItem :=
  Ui.mkItem 1 "Denim jacket" "Outerwear" Stub.pngImage.

Definition dress : Ui.ClothingItem :=
  Ui.mkItem 2 "Summer dress" "Dresses" Stub.pngImage.

Definition coat : Ui.ClothingItem :=
  Ui.mkItem 3 "Rain coat" "Outerwear" Stub.pngImage.

(** The application as it starts, with a library of three items. *)
Definition initial : App.State :=
  App.mkState None None None None None false "Generating your look..." None
              [jacket; dress; coat].

(** The user has uploaded a model image and selected the jacket. *)
Definition ready : App.State :=
  App.handleClothingSelect 1 Stub.pngImage
                           (App.handleModelImageUpload Stub.pngImage initial).

Definition world (s : App.State) : Gemini.World nat App.Client :=
  Gemini.mkWorld 0%nat [] [] (App.mkClient s []).

End StubMore.

(** ** Thunks and callbacks that can throw anything, for concrete runs *)

Module StubAny.

Import Thrown.

(** [new Error(msg)], thrown. *)
Definition failsWith {T : Type} (msg : string) : Completion T :=
  Throw (ofError (new_Error msg)).

(** As [Stub.scripted], for thunks that can throw anything. *)
Definition scriptedAny {T : Type} (script : list (Completion T))
           (otherwise : Completion T) (n : nat) : Completion T * nat :=
  (nth n script otherwise, S n).

(** The texts of V8's [TypeError]s. *)
Definition typeErrorText (v : Value) : string :=
  match v with
  | Nullish => "Cannot read properties of null (reading 'message')"
  | _ => "lastError.message?.toLowerCase is not a function"
  end.

(** A callback that fails while it updates the display. *)
Definition failingCallback (attempt : Z) (n : nat) : Completion unit * nat :=
  (Throw (ofError (new_Error "Cannot update an unmounted component")), n).

End StubAny.

(* ================================================================== *)
(** * Part III: properties                                             *)
(* ================================================================== *)

Import Spec.

(** ** Strings *)

Section StringFacts.

Import JsString.

Lemma append_nil_r (s : string) : (s ++ "")%string = s.
Proof. induction s as [|c s IH]; simpl; [reflexivity | now rewrite IH]. Qed.

Lemma append_assoc (a b c : string) :
  ((a ++ b) ++ c)%string = (a ++ (b ++ c))%string.
Proof. induction a as [|x a IH]; simpl; [reflexivity | now rewrite IH]. Qed.

Lemma startsWith_spec (s p : string) :
  startsWith s p = true <-> exists post, s = (p ++ post)%string.
Proof.
  revert s; induction p as [|b p IH]; intros s; simpl.
  - split; [intros _; now exists s | intros _; now destruct s].
  - destruct s as [|a s]; simpl.
    + split; [discriminate | intros [post H]; discriminate].
    + rewrite andb_true_iff, IH. split.
      * intros [Hab [post ->]]. apply Ascii.eqb_eq in Hab. subst. now exists post.
      * intros [post H]. injection H as -> ->. split.
        -- apply Ascii.eqb_refl.
        -- now exists post.
Qed.

Lemma includes_unfold (s needle : string) :
  includes s needle =
  if startsWith s needle then true
  else match s with
       | EmptyString => false
       | String _ rest => includes rest needle
       end.
Proof. destruct s; reflexivity. Qed.

Lemma includes_spec (s needle : string) :
  includes s needle = true <->
  exists pre post, s = (pre ++ needle ++ post)%string.
Proof.
  induction s as [|a s IH]; rewrite includes_unfold.
  - destruct (startsWith "" needle) eqn:E.
    + split; [intros _ | reflexivity].
      apply startsWith_spec in E. destruct E as [post E]. now exists "", post.
    + split; [discriminate |].
      intros [pre [post H]]. destruct pre; simpl in H.
      * assert (startsWith "" needle = true) as E'
            by (apply startsWith_spec; now exists post).
        congruence.
      * discriminate.
  - destruct (startsWith (String a s) needle) eqn:E.
    + split; [intros _ | reflexivity].
      apply startsWith_spec in E. destruct E as [post E]. now exists "", post.
    + rewrite IH. split.
      * intros [pre [post ->]]. now exists (String a pre), post.
      * intros [pre [post H]]. destruct pre as [|x pre]; simpl in H.
        -- assert (startsWith (String a s) needle = true) as E'
               by (apply startsWith_spec; now exists post).
           congruence.
        -- injection H as _ ->. now exists pre, post.
Qed.

Lemma toLowerCase_app (a b : string) :
  toLowerCase (a ++ b) = (toLowerCase a ++ toLowerCase b)%string.
Proof. induction a as [|x a IH]; simpl; [reflexivity | now rewrite IH]. Qed.

Lemma toLowerCase_split (s a b : string) :
  toLowerCase s = (a ++ b)%string ->
  exists s1 s2, s = (s1 ++ s2)%string /\ toLowerCase s1 = a /\ toLowerCase s2 = b.
Proof.
  revert s; induction a as [|x a IH]; intros s H; simpl in H.
  - now exists "", s.
  - destruct s as [|c s]; simpl in H; [discriminate |].
    injection H as Hc Hs. destruct (IH _ Hs) as [s1 [s2 [-> [H1 H2]]]].
    exists (String c s1), s2. simpl. now rewrite Hc, H1.
Qed.

(** The code's test, a search in the lower-cased message, is the
    case-insensitive occurrence of the needle in the message. *)
Lemma includes_toLowerCase (msg needle : string) :
  includes (toLowerCase msg) needle = true <-> ContainsCI msg needle.
Proof.
  rewrite includes_spec. split.
  - intros [pre [post H]].
    apply toLowerCase_split in H. destruct H as [s1 [s23 [-> [_ H]]]].
    apply toLowerCase_split in H. destruct H as [s2 [s3 [-> [H2 _]]]].
    now exists s1, s2, s3.
  - intros [pre [mid [post [-> H]]]].
    exists (toLowerCase pre), (toLowerCase post).
    now rewrite !toLowerCase_app, H.
Qed.

End StringFacts.

Example toLowerCase_example :
  JsString.toLowerCase "RESOURCE_EXHAUSTED: Quota" = "resource_exhausted: quota".
Proof. reflexivity. Qed.

Example includes_example :
  JsString.includes "503 service unavailable" "service unavailable" = true /\
  JsString.includes "503 service unavailable" "500" = false.
Proof. split; reflexivity. Qed.

Example trim_example :
  JsString.trim (String "009" (String "194" (String "160" " {} "))) = "{}".
Proof. reflexivity. Qed.

Example warnLine_example :
  Retry.warnLine 2 (Retry.backoffDelay 2)
  = "Retriable error detected. Retrying in 2s... (Attempt 2/2)".
Proof. reflexivity. Qed.

(** ** The classification flags *)

Section ClassificationFacts.

Import JsString.

Lemma errorMessage_text (e : JsError) :
  Retry.errorMessage e = toLowerCase (textOf e).
Proof.
  unfold Retry.errorMessage, textOf.
  destruct (message e) as [[|c m]|]; reflexivity.
Qed.

Lemma isRateLimitError_iff (e : JsError) :
  Retry.isRateLimitError (Retry.errorMessage e) = true <-> RateLimitText (textOf e).
Proof.
  unfold Retry.isRateLimitError, RateLimitText.
  rewrite errorMessage_text, !orb_true_iff, !includes_toLowerCase. tauto.
Qed.

Lemma isServerError_iff (e : JsError) :
  Retry.isServerError (Retry.errorMessage e) = true <-> ServerText (textOf e).
Proof.
  unfold Retry.isServerError, ServerText.
  rewrite errorMessage_text, !orb_true_iff, !includes_toLowerCase. tauto.
Qed.

Lemma isInvalidInputError_iff (e : JsError) :
  Retry.isInvalidInputError (Retry.errorMessage e) = true <->
  InvalidInputText (textOf e).
Proof.
  unfold Retry.isInvalidInputError, InvalidInputText.
  rewrite errorMessage_text, !orb_true_iff, !includes_toLowerCase. tauto.
Qed.

Lemma rate_reflect (e : JsError) :
  reflect (RateLimitText (textOf e)) (Retry.isRateLimitError (Retry.errorMessage e)).
Proof. apply iff_reflect. symmetry. apply isRateLimitError_iff. Qed.

Lemma server_reflect (e : JsError) :
  reflect (ServerText (textOf e)) (Retry.isServerError (Retry.errorMessage e)).
Proof. apply iff_reflect. symmetry. apply isServerError_iff. Qed.

Lemma invalid_reflect (e : JsError) :
  reflect (InvalidInputText (textOf e))
          (Retry.isInvalidInputError (Retry.errorMessage e)).
Proof. apply iff_reflect. symmetry. apply isInvalidInputError_iff. Qed.

(** Deciding [Retriable] by evaluating the code's flags. *)
Lemma Retriable_flags (e : JsError) :
  (Retry.isRateLimitError (Retry.errorMessage e)
   || Retry.isServerError (Retry.errorMessage e))
  && negb (Retry.isInvalidInputError (Retry.errorMessage e)) = true ->
  Retriable (textOf e).
Proof.
  unfold Retriable.
  destruct (rate_reflect e), (server_reflect e), (invalid_reflect e);
    simpl; intros H; try discriminate; tauto.
Qed.

End ClassificationFacts.

(** ** One iteration of the loop, case by case *)

Section LoopFacts.

Context {W T : Type}.
Variable apiCall : W -> Outcome T * W.
Variable onRetry : option (Z -> W -> W).

Abbreviation attempts := (Retry.attempts apiCall onRetry).
Abbreviation callGeminiWithRetry := (Retry.callGeminiWithRetry apiCall onRetry).
Abbreviation segment := (retrySegment onRetry).
Abbreviation segments := (retrySegments onRetry).
Abbreviation Starts := (AttemptStarts apiCall onRetry).

Lemma after_nil (r : Retry.Run W T) : Retry.after [] r = r.
Proof. now destruct r. Qed.

Lemma after_after (a b : list Event) (r : Retry.Run W T) :
  Retry.after a (Retry.after b r) = Retry.after (a ++ b) r.
Proof. unfold Retry.after; simpl. now rewrite app_assoc. Qed.

Lemma callOnRetry_events (j : Z) (w : W) :
  snd (Retry.callOnRetry onRetry j w) = onRetryEvents onRetry j.
Proof. unfold Retry.callOnRetry, onRetryEvents. now destruct onRetry. Qed.

Lemma attempts_resolved rem a le w v w1 :
  apiCall w = (Resolved v, w1) ->
  attempts (S rem) a le w = Retry.mkRun (Resolved v) w1 [EvCall].
Proof. intros H. simpl. now rewrite H. Qed.

Lemma attempts_invalid rem a le w e w1 :
  apiCall w = (Rejected e, w1) ->
  InvalidInputText (textOf e) ->
  attempts (S rem) a le w =
  Retry.mkRun (Rejected (new_InvalidInputError (Some Retry.invalidInputNotice)))
              w1 [EvCall].
Proof.
  intros H Hi. simpl. rewrite H.
  destruct (invalid_reflect e); [reflexivity | contradiction].
Qed.

Lemma attempts_retry rem a le w e w1 :
  apiCall w = (Rejected e, w1) ->
  Retriable (textOf e) ->
  a < Retry.MAX_RETRIES ->
  attempts (S rem) a le w =
  Retry.after (segment a)
              (attempts rem (a + 1) (Some e)
                        (fst (Retry.callOnRetry onRetry a w1))).
Proof.
  intros H [Hr Hi] Ha. simpl. rewrite H.
  destruct (invalid_reflect e); [contradiction |].
  assert (Retry.isRateLimitError (Retry.errorMessage e)
          || Retry.isServerError (Retry.errorMessage e) = true) as ->.
  { destruct (rate_reflect e), (server_reflect e); simpl; tauto. }
  apply Z.ltb_lt in Ha. rewrite Ha. simpl.
  pose proof (callOnRetry_events a w1) as Hev.
  destruct (Retry.callOnRetry onRetry a w1) as [w2 called]. simpl in *.
  now subst.
Qed.

Lemma attempts_last_rate rem a le w e w1 :
  apiCall w = (Rejected e, w1) ->
  RateLimitText (textOf e) ->
  ~ InvalidInputText (textOf e) ->
  Retry.MAX_RETRIES <= a ->
  attempts (S rem) a le w =
  Retry.mkRun (Rejected (new_RateLimitError None)) w1 [EvCall].
Proof.
  intros H Hr Hi Ha. simpl. rewrite H.
  destruct (invalid_reflect e); [contradiction |].
  destruct (rate_reflect e); [| contradiction].
  apply Z.ltb_ge in Ha. rewrite Ha. reflexivity.
Qed.

Lemma attempts_last_server rem a le w e w1 :
  apiCall w = (Rejected e, w1) ->
  ServerText (textOf e) ->
  ~ RateLimitText (textOf e) ->
  ~ InvalidInputText (textOf e) ->
  Retry.MAX_RETRIES <= a ->
  attempts (S rem) a le w =
  Retry.mkRun (Rejected (new_ServerError None)) w1 [EvCall].
Proof.
  intros H Hs Hr Hi Ha. simpl. rewrite H.
  destruct (invalid_reflect e); [contradiction |].
  destruct (rate_reflect e); [contradiction |].
  destruct (server_reflect e); [| contradiction].
  apply Z.ltb_ge in Ha. rewrite Ha. reflexivity.
Qed.

Lemma attempts_generic rem a le w e w1 :
  apiCall w = (Rejected e, w1) ->
  ~ RateLimitText (textOf e) ->
  ~ ServerText (textOf e) ->
  ~ InvalidInputText (textOf e) ->
  attempts (S rem) a le w =
  Retry.mkRun (Rejected (new_ApiError (message e))) w1 [EvCall].
Proof.
  intros H Hr Hs Hi. simpl. rewrite H.
  destruct (invalid_reflect e); [contradiction |].
  destruct (rate_reflect e); [contradiction |].
  destruct (server_reflect e); [contradiction |].
  reflexivity.
Qed.

End LoopFacts.

(** ** Whole runs *)

Section DeadCode.

Context {W T : Type}.
Variable apiCall : W -> Outcome T * W.
Variable onRetry : option (Z -> W -> W).

(** At the last allowed attempt the loop body always throws or returns:
    what remains of the loop, and the statement after it, play no part. *)
Lemma last_attempt_never_loops (rem : nat) (a : Z) (le : option JsError) (w : W) :
  Retry.MAX_RETRIES <= a ->
  Retry.attempts apiCall onRetry (S rem) a le w
  = Retry.attempts apiCall onRetry 1 a le w.
Proof.
  intros Ha. cbn [Retry.attempts].
  destruct (apiCall w) as [[v|e] w1]; [reflexivity |].
  apply Z.ltb_ge in Ha. rewrite Ha, andb_false_r.
  now destruct (Retry.callOnRetry onRetry a w1).
Qed.

End DeadCode.

Section RunFacts.

Context {W T : Type}.
Variable apiCall : W -> Outcome T * W.
Variable onRetry : option (Z -> W -> W).

Abbreviation attempts := (Retry.attempts apiCall onRetry).
Abbreviation callGeminiWithRetry := (Retry.callGeminiWithRetry apiCall onRetry).
Abbreviation segment := (retrySegment onRetry).
Abbreviation segments := (retrySegments onRetry).
Abbreviation Starts := (AttemptStarts apiCall onRetry).

Lemma zseq_snoc (a : Z) (n : nat) :
  zseq a (S n) = zseq a n ++ [a + Z.of_nat n].
Proof.
  revert a; induction n as [|n IH]; intros a.
  - simpl. now rewrite Z.add_0_r.
  - change (zseq a (S (S n))) with (a :: zseq (a + 1) (S n)).
    rewrite IH. simpl. do 3 f_equal. lia.
Qed.

Lemma segments_snoc (a : Z) (n : nat) :
  segments a (S n) = segments a n ++ segment (a + Z.of_nat n).
Proof.
  unfold retrySegments. rewrite zseq_snoc, flat_map_app. simpl.
  now rewrite app_nil_r.
Qed.

Lemma segments_cons (a : Z) (n : nat) :
  segments a (S n) = segment a ++ segments (a + 1) n.
Proof. reflexivity. Qed.

(** The run up to the start of attempt [k] consists of [k - 1] retried
    attempts; the rest of the run is the loop entered at [k]. *)
Lemma run_from_attempt (w0 : W) (k : Z) (wk : W) :
  Starts w0 k wk ->
  1 <= k <= Retry.MAX_RETRIES /\
  exists le,
    callGeminiWithRetry w0 =
    Retry.after (segments 1 (Z.to_nat (k - 1)))
                (attempts (Z.to_nat (Retry.MAX_RETRIES + 1 - k)) k le wk).
Proof.
  induction 1 as [|k w e w1 Hs [Hk [le IH]] Hcall Hretr Hlt].
  - split; [unfold Retry.MAX_RETRIES; lia |].
    exists None. simpl. now rewrite after_nil.
  - split; [lia |].
    exists (Some e). rewrite IH.
    replace (Z.to_nat (Retry.MAX_RETRIES + 1 - k))
      with (S (Z.to_nat (Retry.MAX_RETRIES + 1 - (k + 1)))) by lia.
    rewrite (attempts_retry _ _ _ _ _ _ _ _ Hcall Hretr Hlt), after_after.
    replace (Z.to_nat (k + 1 - 1)) with (S (Z.to_nat (k - 1))) by lia.
    rewrite segments_snoc.
    replace (1 + Z.of_nat (Z.to_nat (k - 1))) with k by lia.
    reflexivity.
Qed.

(** Every run is a number of retried attempts followed by one last
    invocation of the thunk, whatever the thunk does. *)
Lemma attempts_shape (rem : nat) :
  forall (a : Z) (le : option JsError) (w : W),
    (0 < rem)%nat ->
    Retry.MAX_RETRIES < a + Z.of_nat rem ->
    exists n,
      (n <= Z.to_nat (Retry.MAX_RETRIES - a))%nat /\
      Retry.trace (attempts rem a le w) = segments a n ++ [EvCall].
Proof.
  induction rem as [|rem IH]; intros a le w Hpos Hinv; [lia |].
  cbn [Retry.attempts].
  destruct (apiCall w) as [[v|e] w1]; [exists 0%nat; split; [lia | reflexivity] |].
  destruct (Retry.isInvalidInputError _);
    [exists 0%nat; split; [lia | reflexivity] |].
  destruct ((_ || _) && (a <? Retry.MAX_RETRIES)) eqn:Hretry.
  - apply andb_true_iff in Hretry. destruct Hretry as [_ Hlt].
    apply Z.ltb_lt in Hlt.
    pose proof (callOnRetry_events onRetry a w1) as Hev.
    destruct (Retry.callOnRetry onRetry a w1) as [w2 called]. simpl in Hev.
    destruct (IH (a + 1) (Some e) w2) as [n [Hn Htr]]; [lia | lia |].
    exists (S n). split; [lia |].
    cbn [Retry.after Retry.trace]. rewrite Htr, segments_cons.
    unfold retrySegment. subst called.
    cbn [app]. now rewrite <- !app_assoc.
  - destruct (Retry.isRateLimitError _);
      [exists 0%nat; split; [lia | reflexivity] |].
    destruct (Retry.isServerError _);
      exists 0%nat; (split; [lia | reflexivity]).
Qed.

Lemma run_shape (w : W) :
  exists n,
    (n <= 2)%nat /\
    Retry.trace (callGeminiWithRetry w) = segments 1 n ++ [EvCall].
Proof.
  destruct (attempts_shape 3 1 None w) as [n [Hn H]];
    [lia | unfold Retry.MAX_RETRIES; lia |].
  exists n. split; [exact Hn | exact H].
Qed.

(** Projections of the retried attempts. *)
Lemma calls_segments (a : Z) (n : nat) (tl : list Event) :
  calls (segments a n ++ tl) = (n + calls tl)%nat.
Proof.
  revert a; induction n as [|n IH]; intros a; [reflexivity |].
  rewrite segments_cons, <- app_assoc.
  unfold calls in *. unfold retrySegment, onRetryEvents.
  destruct onRetry; simpl; now rewrite IH.
Qed.

Lemma sleeps_segments (a : Z) (n : nat) (tl : list Event) :
  sleeps (segments a n ++ tl) = map Retry.backoffDelay (zseq a n) ++ sleeps tl.
Proof.
  revert a; induction n as [|n IH]; intros a; [reflexivity |].
  rewrite segments_cons, <- app_assoc.
  unfold retrySegment, onRetryEvents.
  destruct onRetry; simpl; now rewrite IH.
Qed.

Lemma onRetryArgs_segments (a : Z) (n : nat) (tl : list Event) :
  onRetryArgs (segments a n ++ tl) =
  match onRetry with
  | Some _ => zseq a n
  | None => []
  end ++ onRetryArgs tl.
Proof.
  revert a; induction n as [|n IH]; intros a; [now destruct onRetry |].
  rewrite segments_cons, <- app_assoc.
  unfold retrySegment, onRetryEvents.
  specialize (IH (a + 1)).
  destruct onRetry; simpl; now rewrite IH.
Qed.

End RunFacts.

(** ** The retry orchestrator *)

Section OrchestratorProperties.

Context {W T : Type}.
Variable apiCall : W -> Outcome T * W.
Variable onRetry : option (Z -> W -> W).

Abbreviation attempts := (Retry.attempts apiCall onRetry).
Abbreviation callGeminiWithRetry := (Retry.callGeminiWithRetry apiCall onRetry).
Abbreviation segments := (retrySegments onRetry).
Abbreviation Starts := (AttemptStarts apiCall onRetry).

(** A run whose attempt [k] ends the loop without a retry. *)
Lemma run_last_step (w0 : W) (k : Z) (wk : W) (o : Outcome T) (wf : W) :
  Starts w0 k wk ->
  (forall rem le, attempts (S rem) k le wk = Retry.mkRun o wf [EvCall]) ->
  callGeminiWithRetry w0 =
  Retry.mkRun o wf (segments 1 (Z.to_nat (k - 1)) ++ [EvCall]).
Proof.
  intros Hs Hstep.
  destruct (run_from_attempt _ _ _ _ _ Hs) as [Hk [le ->]].
  replace (Z.to_nat (Retry.MAX_RETRIES + 1 - k))
    with (S (Z.to_nat (Retry.MAX_RETRIES - k))) by lia.
  now rewrite Hstep.
Qed.

Lemma calls_run_trace (k : Z) :
  1 <= k ->
  calls (segments 1 (Z.to_nat (k - 1)) ++ [EvCall]) = Z.to_nat k.
Proof. intros Hk. rewrite calls_segments. unfold calls; simpl. lia. Qed.



(** C2. Whenever the failure of an attempt carries "400" or "invalid
    argument" (in any case of letters), whatever else it carries, the run
    rejects at once with [InvalidInputError]: the failing invocation is
    the last action of the run, so with [k] the number of the attempt the
    thunk has been invoked exactly [k] times. When this is the first
    attempt the thunk is invoked once and [onRetry] not at all. *)
Theorem invalid_input_rejects_immediately
        (w0 : W) (k : Z) (wk : W) (e : JsError) (w1 : W) :
  Starts w0 k wk ->
  apiCall wk = (Rejected e, w1) ->
  InvalidInputText (textOf e) ->
  Retry.outcome (callGeminiWithRetry w0)
    = Rejected (new_InvalidInputError (Some Retry.invalidInputNotice)) /\
  Retry.final (callGeminiWithRetry w0) = w1 /\
  Retry.trace (callGeminiWithRetry w0)
    = segments 1 (Z.to_nat (k - 1)) ++ [EvCall] /\
  calls (Retry.trace (callGeminiWithRetry w0)) = Z.to_nat k /\
  (k = 1 ->
   Retry.trace (callGeminiWithRetry w0) = [EvCall] /\
   calls (Retry.trace (callGeminiWithRetry w0)) = 1%nat /\
   onRetryArgs (Retry.trace (callGeminiWithRetry w0)) = []).
Proof.
  intros Hs Hc Hi.
  pose proof (run_from_attempt _ _ _ _ _ Hs) as [Hk _].
  rewrite (run_last_step w0 k wk _ w1 Hs
             (fun rem le => attempts_invalid _ _ rem k le wk e w1 Hc Hi)).
  cbn [Retry.outcome Retry.final Retry.trace].
  rewrite calls_run_trace by lia.
  repeat split; try reflexivity.
  all: subst k; reflexivity.
Qed.

(** C3. When attempt [k] takes place and the thunk resolves there, the
    run resolves with that value, the thunk has been invoked exactly [k]
    times ([k] is 1, 2 or 3), and the successful invocation is the last
    action of the run: the world is left as the thunk left it and nothing,
    in particular no [onRetry], follows. In every run whatsoever the thunk
    is invoked at most three times. *)
Theorem success_on_attempt_returns :
  (forall (w0 : W) (k : Z) (wk : W) (v : T) (w1 : W),
      Starts w0 k wk ->
      apiCall wk = (Resolved v, w1) ->
      1 <= k <= 3 /\
      Retry.outcome (callGeminiWithRetry w0) = Resolved v /\
      Retry.final (callGeminiWithRetry w0) = w1 /\
      calls (Retry.trace (callGeminiWithRetry w0)) = Z.to_nat k /\
      Retry.trace (callGeminiWithRetry w0)
        = segments 1 (Z.to_nat (k - 1)) ++ [EvCall])
  /\
  (forall w0 : W, (calls (Retry.trace (callGeminiWithRetry w0)) <= 3)%nat).
Proof.
  split.
  - intros w0 k wk v w1 Hs Hc.
    pose proof (run_from_attempt _ _ _ _ _ Hs) as [Hk _].
    rewrite (run_last_step w0 k wk _ w1 Hs
               (fun rem le => attempts_resolved _ _ rem k le wk v w1 Hc)).
    cbn [Retry.outcome Retry.final Retry.trace].
    rewrite calls_run_trace by lia.
    repeat split; try reflexivity; unfold Retry.MAX_RETRIES in Hk; lia.
  - intros w0. destruct (run_shape apiCall onRetry w0) as [n [Hn ->]].
    rewrite calls_segments. unfold calls; simpl. lia.
Qed.

(** C4. When the failure of attempt [k] triggers a retry (so [k] is 1 or
    2), the [k]-th sleep of the run is asked for exactly
    [1000 * 2^(k-1)] milliseconds: 1000 after attempt 1, 2000 after
    attempt 2. The sleeps of a run are none, [1000], or [1000; 2000], so
    they add up to at most 3000. *)
Theorem backoff_delays (w0 : W) :
  (forall (k : Z) (w' : W),
      1 <= k ->
      Starts w0 (k + 1) w' ->
      (k = 1 \/ k = 2) /\
      nth_error (sleeps (Retry.trace (callGeminiWithRetry w0))) (Z.to_nat (k - 1))
        = Some (1000 * 2 ^ (k - 1)))
  /\
  (sleeps (Retry.trace (callGeminiWithRetry w0)) = [] \/
   sleeps (Retry.trace (callGeminiWithRetry w0)) = [1000] \/
   sleeps (Retry.trace (callGeminiWithRetry w0)) = [1000; 2000])
  /\
  total (sleeps (Retry.trace (callGeminiWithRetry w0))) <= 3000.
Proof.
  split; [| ].
  - intros k w' Hk Hs.
    destruct (run_from_attempt _ _ _ _ _ Hs) as [Hb [le ->]].
    unfold Retry.MAX_RETRIES in Hb.
    assert (k = 1 \/ k = 2) as Hcase by lia.
    split; [exact Hcase |].
    cbn [Retry.after Retry.trace]. rewrite sleeps_segments.
    destruct Hcase; subst k; reflexivity.
  - destruct (run_shape apiCall onRetry w0) as [n [Hn ->]].
    rewrite sleeps_segments.
    destruct n as [|[|[|n]]]; [| | | lia];
      (split; [vm_compute; auto | vm_compute; discriminate]).
Qed.

(** C6. The integers passed to [onRetry] in one run are, in order, none,
    [1], or [1; 2]: strictly increasing, starting at 1, at most two. *)
Theorem onRetry_arguments (w0 : W) :
  (onRetryArgs (Retry.trace (callGeminiWithRetry w0)) = [] \/
   onRetryArgs (Retry.trace (callGeminiWithRetry w0)) = [1] \/
   onRetryArgs (Retry.trace (callGeminiWithRetry w0)) = [1; 2])
  /\ StronglySorted Z.lt (onRetryArgs (Retry.trace (callGeminiWithRetry w0)))
  /\ (length (onRetryArgs (Retry.trace (callGeminiWithRetry w0))) <= 2)%nat
  /\ hd 1 (onRetryArgs (Retry.trace (callGeminiWithRetry w0))) = 1.
Proof.
  destruct (run_shape apiCall onRetry w0) as [n [Hn ->]].
  rewrite onRetryArgs_segments.
  destruct onRetry; destruct n as [|[|[|n]]]; try lia; simpl;
    (split; [auto |]); (split; [| split; [lia | reflexivity]]);
    repeat constructor.
Qed.

(** C9. Invalid-input wins over the two retriable kinds within the
    classification of one attempt: a failure that carries an invalid-input
    marker together with a rate-limit or a server-error substring rejects
    at once with [InvalidInputError], at whatever attempt. Rate-limit wins
    over server-error in the final throw: when the last allowed attempt
    fails with a message that matches a rate-limit substring and carries
    no invalid-input marker, the run rejects with [RateLimitError], also
    when the message matches a server-error substring as well. *)
Theorem classification_precedence :
  (forall (w0 : W) (k : Z) (wk : W) (e : JsError) (w1 : W),
      Starts w0 k wk ->
      apiCall wk = (Rejected e, w1) ->
      InvalidInputText (textOf e) ->
      RateLimitText (textOf e) \/ ServerText (textOf e) ->
      Retry.outcome (callGeminiWithRetry w0)
        = Rejected (new_InvalidInputError (Some Retry.invalidInputNotice)) /\
      calls (Retry.trace (callGeminiWithRetry w0)) = Z.to_nat k)
  /\
  (forall (w0 w3 : W) (e : JsError) (w1 : W),
      Starts w0 Retry.MAX_RETRIES w3 ->
      apiCall w3 = (Rejected e, w1) ->
      RateLimitText (textOf e) ->
      ServerText (textOf e) ->
      ~ InvalidInputText (textOf e) ->
      Retry.outcome (callGeminiWithRetry w0) = Rejected (new_RateLimitError None) /\
      Retry.outcome (callGeminiWithRetry w0) <> Rejected (new_ServerError None)).
Proof.
  split.
  - intros w0 k wk e w1 Hs Hc Hi _.
    pose proof (run_from_attempt _ _ _ _ _ Hs) as [Hk _].
    rewrite (run_last_step w0 k wk _ w1 Hs
               (fun rem le => attempts_invalid _ _ rem k le wk e w1 Hc Hi)).
    cbn [Retry.outcome Retry.trace].
    rewrite calls_run_trace by lia. now split.
  - intros w0 w3 e w1 Hs Hc Hr _ Hi.
    rewrite (run_last_step w0 _ w3 (Rejected (new_RateLimitError None)) w1 Hs).
    + cbn [Retry.outcome]. split; [reflexivity | discriminate].
    + intros rem le.
      apply (attempts_last_rate _ _ rem Retry.MAX_RETRIES le w3 e w1); auto.
      lia.
Qed.

End OrchestratorProperties.

Section OnRetryGiven.

Context {W T : Type}.
Variable apiCall : W -> Outcome T * W.
Variable cb : Z -> W -> W.

Abbreviation run := (Retry.callGeminiWithRetry apiCall (Some cb)).


End OnRetryGiven.

(** ** Concrete runs of the orchestrator *)

(** Attempt [k + 1] of a concrete run, from attempt [k] of it. *)
Ltac next_attempt k w e w1 :=
  refine (starts_next _ _ _ k w e w1 _ eq_refl _ eq_refl);
  [ | apply Retriable_flags; reflexivity ].

Ltac flag_holds lem := apply lem; reflexivity.
Ltac flag_fails lem :=
  let H := fresh in intros H; apply lem in H; vm_compute in H; discriminate H.


Lemma invalid_input_rejects_immediately_witness :
  let thunk :=
    Stub.scripted (T := string) [] (Stub.fails "400 Bad Request: invalid image") in
  let r := Retry.callGeminiWithRetry thunk (Some (fun _ w => w)) 0%nat in
  Retry.outcome r = Rejected (new_InvalidInputError (Some Retry.invalidInputNotice)) /\
  Retry.trace r = [EvCall] /\
  calls (Retry.trace r) = 1%nat /\
  onRetryArgs (Retry.trace r) = [].
Proof.
  intros thunk r.
  destruct (invalid_input_rejects_immediately
              thunk (Some (fun _ w => w)) 0%nat 1 0%nat
              (new_Error "400 Bad Request: invalid image") 1%nat)
    as [Ho [_ [_ [_ Hfirst]]]].
  - apply starts_first.
  - reflexivity.
  - flag_holds isInvalidInputError_iff.
  - split; [exact Ho | exact (Hfirst eq_refl)].
Defined.

Lemma success_on_attempt_returns_witness :
  let thunk :=
    Stub.scripted [Stub.fails "503 Service Unavailable";
                   Stub.fails "Quota exceeded";
                   Resolved "styled"%string]
                  (Stub.fails "not reached") in
  let r := Retry.callGeminiWithRetry thunk (Some (fun _ w => w)) 0%nat in
  1 <= 3 <= 3 /\
  Retry.outcome r = Resolved "styled"%string /\
  Retry.final r = 3%nat /\
  calls (Retry.trace r) = 3%nat /\
  Retry.trace r = retrySegments (W := nat) (Some (fun _ w => w)) 1 2 ++ [EvCall].
Proof.
  intros thunk r.
  apply (proj1 (success_on_attempt_returns thunk (Some (fun _ w => w)))
               0%nat 3 2%nat "styled"%string 3%nat); [| reflexivity].
  next_attempt 2 1%nat (new_Error "Quota exceeded") 2%nat.
  next_attempt 1 0%nat (new_Error "503 Service Unavailable") 1%nat.
  apply starts_first.
Defined.

Lemma backoff_delays_witness :
  let thunk :=
    Stub.scripted (T := string) [] (Stub.fails "503 Service Unavailable") in
  let r := Retry.callGeminiWithRetry thunk None 0%nat in
  nth_error (sleeps (Retry.trace r)) 0 = Some 1000 /\
  nth_error (sleeps (Retry.trace r)) 1 = Some 2000.
Proof.
  intros thunk r.
  assert (AttemptStarts thunk None 0%nat 2 1%nat) as S2.
  { next_attempt 1 0%nat (new_Error "503 Service Unavailable") 1%nat.
    apply starts_first. }
  assert (AttemptStarts thunk None 0%nat 3 2%nat) as S3.
  { next_attempt 2 1%nat (new_Error "503 Service Unavailable") 2%nat.
    exact S2. }
  split.
  - exact (proj2 (proj1 (backoff_delays thunk None 0%nat) 1 1%nat
                        (Z.le_refl 1) S2)).
  - refine (proj2 (proj1 (backoff_delays thunk None 0%nat) 2 2%nat _ S3)).
    discriminate.
Defined.


Lemma classification_precedence_witness :
  (let thunk :=
     Stub.scripted (T := string) [] (Stub.fails "400 INVALID ARGUMENT after 429") in
   Retry.outcome (Retry.callGeminiWithRetry thunk None 0%nat)
     = Rejected (new_InvalidInputError (Some Retry.invalidInputNotice)) /\
   calls (Retry.trace (Retry.callGeminiWithRetry thunk None 0%nat)) = 1%nat)
  /\
  (let thunk :=
     Stub.scripted (T := string) [] (Stub.fails "503: quota exhausted") in
   Retry.outcome (Retry.callGeminiWithRetry thunk None 0%nat)
     = Rejected (new_RateLimitError None) /\
   Retry.outcome (Retry.callGeminiWithRetry thunk None 0%nat)
     <> Rejected (new_ServerError None)).
Proof.
  split; intros thunk.
  - apply (proj1 (classification_precedence thunk None) 0%nat 1 0%nat
                 (new_Error "400 INVALID ARGUMENT after 429") 1%nat).
    + apply starts_first.
    + reflexivity.
    + flag_holds isInvalidInputError_iff.
    + left. flag_holds isRateLimitError_iff.
  - apply (proj2 (classification_precedence thunk None) 0%nat 2%nat
                 (new_Error "503: quota exhausted") 3%nat).
    + next_attempt 2 1%nat (new_Error "503: quota exhausted") 2%nat.
      next_attempt 1 0%nat (new_Error "503: quota exhausted") 1%nat.
      apply starts_first.
    + reflexivity.
    + flag_holds isRateLimitError_iff.
    + flag_holds isServerError_iff.
    + flag_fails isInvalidInputError_iff.
Defined.

(** ** The service operations *)

Section ExtensionalFacts.

Context {W T : Type}.


Lemma attempts_preserves (P : W -> Prop)
      (apiCall : W -> Outcome T * W) (onRetry : option (Z -> W -> W)) :
  (forall w, P w -> P (snd (apiCall w))) ->
  (forall k w, P w -> P (fst (Retry.callOnRetry onRetry k w))) ->
  forall rem a le w,
    P w -> P (Retry.final (Retry.attempts apiCall onRetry rem a le w)).
Proof.
  intros Hcall Hcb. induction rem as [|rem IH]; intros a le w Hw; [exact Hw |].
  cbn [Retry.attempts].
  specialize (Hcall w Hw).
  destruct (apiCall w) as [[v|e] w1]; [exact Hcall |]. simpl in Hcall.
  specialize (Hcb a w1 Hcall).
  destruct (Retry.callOnRetry onRetry a w1) as [w2 called]. simpl in Hcb.
  repeat match goal with
         | |- context [if ?b then _ else _] => destruct b
         end; try exact Hcall.
  cbn [Retry.after Retry.final]. now apply IH.
Qed.

End ExtensionalFacts.

Section ServiceFacts.

Import Gemini.

Context {R U : Type}.
Variable runtime : Runtime.
Variable service : Request -> R -> Outcome GenerateContentResponse * R.

Abbreviation World := (Gemini.World R U).

(** The texts of the two operation-level failures carry none of the
    substrings the orchestrator looks for. *)
Lemma noImage_unclassified :
  ~ RateLimitText noImageMessage /\ ~ ServerText noImageMessage /\
  ~ InvalidInputText noImageMessage.
Proof.
  change noImageMessage with (textOf (new_Error noImageMessage)).
  repeat split; intros H.
  - apply isRateLimitError_iff in H. discriminate H.
  - apply isServerError_iff in H. discriminate H.
  - apply isInvalidInputError_iff in H. discriminate H.
Qed.

Lemma invalidFormat_unclassified :
  ~ RateLimitText invalidFormatMessage /\ ~ ServerText invalidFormatMessage /\
  ~ InvalidInputText invalidFormatMessage.
Proof.
  change invalidFormatMessage with (textOf (new_Error invalidFormatMessage)).
  repeat split; intros H.
  - apply isRateLimitError_iff in H. discriminate H.
  - apply isServerError_iff in H. discriminate H.
  - apply isInvalidInputError_iff in H. discriminate H.
Qed.

(** What one invocation of the thunks does once the remote service has
    answered. *)
Lemma styledImageCall_answered modelImage clothingImage p1 p2 response r' (w : World) :
  createImagePart runtime modelImage = Resolved p1 ->
  createImagePart runtime clothingImage = Resolved p2 ->
  service (styledImageRequest p1 p2) (remote w) = (Resolved response, r') ->
  styledImageCall runtime service modelImage clothingImage w =
  (match inlineDataOf (firstPart response) with
   | Some blob =>
       Resolved (Json.stringifyObject
                   [("mimeType", mimeType blob); ("data", data blob)])
   | None => Rejected (new_Error noImageMessage)
   end,
   mkWorld r' (requests w ++ [styledImageRequest p1 p2]) (errorLog w) (ui w)).
Proof.
  intros H1 H2 Hs.
  unfold styledImageCall, bind, lift, generateContent.
  rewrite H1, H2, Hs.
  now destruct (inlineDataOf (firstPart response)).
Qed.

Lemma trendCall_answered generatedImage p response r' (w : World) :
  createImagePart runtime generatedImage = Resolved p ->
  service (trendRequest p) (remote w) = (Resolved response, r') ->
  trendCall runtime service generatedImage w =
  match text response with
  | Some t =>
      match JSON_parse runtime (JsString.trim t) with
      | inl v =>
          (Resolved v,
           mkWorld r' (requests w ++ [trendRequest p]) (errorLog w) (ui w))
      | inr _ =>
          (Rejected (new_Error invalidFormatMessage),
           mkWorld r' (requests w ++ [trendRequest p])
                   (errorLog w ++ [("Failed to parse JSON response:", Some t)])
                   (ui w))
      end
  | None =>
      (Rejected (new_Error invalidFormatMessage),
       mkWorld r' (requests w ++ [trendRequest p])
               (errorLog w ++ [("Failed to parse JSON response:", None)])
               (ui w))
  end.
Proof.
  intros H1 Hs.
  unfold trendCall, bind, lift, generateContent, tryCatch, trimmedText, parseJson.
  rewrite H1, Hs.
  destruct (text response) as [t|]; [| reflexivity].
  now destruct (JSON_parse runtime (JsString.trim t)).
Qed.





End ServiceFacts.

Section RejectingThunks.

Context {W T : Type}.
Variable apiCall : W -> Outcome T * W.
Variable onRetry : option (Z -> W -> W).


End RejectingThunks.

Section ServiceProperties.

Import Gemini.

Context {R U : Type}.
Variable runtime : Runtime.
Variable service : Request -> R -> Outcome GenerateContentResponse * R.

Abbreviation World := (Gemini.World R U).

(** C7, as the code has it. Once the remote call of some attempt has
    answered, [generateStyledImage] looks at the first content part of
    the first candidate only. If that part carries inline data, the
    operation resolves with the JSON text of its [mimeType] and [data];
    if there is no such part or it carries no inline data, the operation
    rejects with the base [ApiError] that wraps the message "Could not
    generate styled image. The API did not return an image.", which is
    none of [InvalidInputError], [RateLimitError], [ServerError]. Either
    way that invocation is the last action of the run: nothing is retried
    and no further request is sent. *)
Theorem generateStyledImage_reads_first_part
        (modelImage clothingImage : string) (onRetry : option (Z -> U -> U))
        (w0 : World) (k : Z) (wk : World) (p1 p2 : Part)
        (response : GenerateContentResponse) (r' : R) :
  createImagePart runtime modelImage = Resolved p1 ->
  createImagePart runtime clothingImage = Resolved p2 ->
  AttemptStarts (styledImageCall runtime service modelImage clothingImage)
                (option_map withUi onRetry) w0 k wk ->
  service (styledImageRequest p1 p2) (remote wk) = (Resolved response, r') ->
  let r := generateStyledImage runtime service modelImage clothingImage onRetry w0 in
  (forall blob,
      inlineDataOf (firstPart response) = Some blob ->
      Retry.outcome r =
      Resolved (Json.stringifyObject
                  [("mimeType", mimeType blob); ("data", data blob)]))
  /\ (inlineDataOf (firstPart response) = None ->
      Retry.outcome r = Rejected (new_ApiError (Some noImageMessage)))
  /\ calls (Retry.trace r) = Z.to_nat k
  /\ Retry.trace r =
     retrySegments (option_map (withUi (R := R)) onRetry) 1 (Z.to_nat (k - 1)) ++ [EvCall]
  /\ requests (Retry.final r) = requests wk ++ [styledImageRequest p1 p2].
Proof.
  intros H1 H2 Hs Hsvc r. subst r. unfold generateStyledImage.
  pose proof (run_from_attempt _ _ _ _ _ Hs) as [Hk _].
  pose proof (styledImageCall_answered runtime service _ _ _ _ _ _ wk H1 H2 Hsvc)
    as Hcall.
  destruct (inlineDataOf (firstPart response)) as [blob|].
  - rewrite (run_last_step _ _ w0 k wk _ _ Hs
               (fun rem le => attempts_resolved _ _ rem k le wk _ _ Hcall)).
    cbn [Retry.outcome Retry.final Retry.trace requests].
    rewrite calls_run_trace by lia.
    split; [| split; [| repeat split]].
    + intros b E. now injection E as <-.
    + discriminate.
  - destruct noImage_unclassified as [Hr [Hsrv Hi]].
    rewrite (run_last_step _ _ w0 k wk _ _ Hs
               (fun rem le =>
                  attempts_generic _ _ rem k le wk _ _ Hcall Hr Hsrv Hi)).
    cbn [Retry.outcome Retry.final Retry.trace requests].
    rewrite calls_run_trace by lia.
    split; [| split; [| repeat split]].
    + discriminate.
    + reflexivity.
Qed.

(** C8, as the code has it. Once the remote call of some attempt has
    answered, [analyzeTrend] resolves exactly when the response has a
    text that, trimmed, parses as JSON, and it resolves with the parsed
    value whatever its shape: no schema is checked. When there is no text
    or it does not parse, the failure is logged and the operation rejects
    with the base [ApiError] that wraps "Failed to analyze trend. The API
    returned an invalid format.", none of the three classified kinds.
    Either way that invocation is the last action of the run. *)
Theorem analyzeTrend_resolves_when_text_parses
        (generatedImage : string) (onRetry : option (Z -> U -> U))
        (w0 : World) (k : Z) (wk : World) (p : Part)
        (response : GenerateContentResponse) (r' : R) :
  createImagePart runtime generatedImage = Resolved p ->
  AttemptStarts (trendCall runtime service generatedImage)
                (option_map withUi onRetry) w0 k wk ->
  service (trendRequest p) (remote wk) = (Resolved response, r') ->
  let r := analyzeTrend runtime service generatedImage onRetry w0 in
  (forall v,
      Retry.outcome r = Resolved v <->
      exists t, text response = Some t /\
                JSON_parse runtime (JsString.trim t) = inl v)
  /\ ((text response = None \/
       exists t msg, text response = Some t /\
                     JSON_parse runtime (JsString.trim t) = inr msg) ->
      Retry.outcome r = Rejected (new_ApiError (Some invalidFormatMessage)) /\
      errorLog (Retry.final r) =
      errorLog wk ++ [("Failed to parse JSON response:", text response)])
  /\ calls (Retry.trace r) = Z.to_nat k
  /\ Retry.trace r =
     retrySegments (option_map (withUi (R := R)) onRetry) 1 (Z.to_nat (k - 1)) ++ [EvCall]
  /\ requests (Retry.final r) = requests wk ++ [trendRequest p].
Proof.
  intros H1 Hs Hsvc r. subst r. unfold analyzeTrend.
  pose proof (run_from_attempt _ _ _ _ _ Hs) as [Hk _].
  pose proof (trendCall_answered runtime service _ _ _ _ wk H1 Hsvc) as Hcall.
  destruct invalidFormat_unclassified as [Hr [Hsrv Hi]].
  destruct (text response) as [t|].
  - destruct (JSON_parse runtime (JsString.trim t)) as [v|msg] eqn:Hparse.
    + rewrite (run_last_step _ _ w0 k wk _ _ Hs
                 (fun rem le => attempts_resolved _ _ rem k le wk _ _ Hcall)).
      cbn [Retry.outcome Retry.final Retry.trace requests errorLog].
      rewrite calls_run_trace by lia.
      split; [| split; [| repeat split]].
      * intros v'. split.
        -- intros E. injection E as <-. exists t. now split.
        -- intros [t' [Et Ev]]. injection Et as <-. congruence.
      * intros [E | [t' [m [Et Ev]]]]; [discriminate |].
        injection Et as <-. congruence.
    + rewrite (run_last_step _ _ w0 k wk _ _ Hs
                 (fun rem le =>
                    attempts_generic _ _ rem k le wk _ _ Hcall Hr Hsrv Hi)).
      cbn [Retry.outcome Retry.final Retry.trace requests errorLog].
      rewrite calls_run_trace by lia.
      split; [| split; [| repeat split]].
      * intros v'. split; [discriminate |].
        intros [t' [Et Ev]]. injection Et as <-. congruence.
      * intros _. now split.
  - rewrite (run_last_step _ _ w0 k wk _ _ Hs
               (fun rem le =>
                  attempts_generic _ _ rem k le wk _ _ Hcall Hr Hsrv Hi)).
    cbn [Retry.outcome Retry.final Retry.trace requests errorLog].
    rewrite calls_run_trace by lia.
    split; [| split; [| repeat split]].
    + intros v'. split; [discriminate |].
      intros [t' [Et Ev]]. discriminate.
    + intros _. now split.
Qed.





End ServiceProperties.

(** ** Concrete runs of the service operations *)

Ltac next_attempt_by_evaluation k w e w1 :=
  refine (starts_next _ _ _ k w e w1 _ _ _ eq_refl);
  [ | vm_compute; reflexivity | apply Retriable_flags; vm_compute; reflexivity ].


(** The reference parser on the texts used below. *)
Example parse_pngImage :
  Json.parse Stub.pngImage
  = Some (Json.JObject [("mimeType", Json.JString "image/png");
                        ("data", Json.JString "abc123")]).
Proof. vm_compute. reflexivity. Qed.

Example stringify_pngBlob :
  Json.stringifyObject [("mimeType", Some "image/png"); ("data", Some "abc123")]
  = Stub.pngImage.
Proof. vm_compute. reflexivity. Qed.

Example parse_rejects_oops : Json.parse "oops" = None.
Proof. vm_compute. reflexivity. Qed.

(** The scenario of the specification: the remote service fails twice
    with "503 Service Unavailable" and then returns an image. *)
Lemma generateStyledImage_reads_first_part_witness :
  let service :=
    Stub.answering [Stub.fails "503 Service Unavailable";
                    Stub.fails "503 Service Unavailable"]
                   (Resolved Stub.imageResponse) in
  let r := Gemini.generateStyledImage Stub.runtime service Stub.pngImage
                                      Stub.pngImage (Some (fun _ u => u))
                                      Stub.fresh in
  Retry.outcome r = Resolved Stub.pngImage /\
  calls (Retry.trace r) = 3%nat /\
  onRetryArgs (Retry.trace r) = [1; 2] /\
  length (Gemini.requests (Retry.final r)) = 3%nat.
Proof.
  intros service r.
  pose (request := Gemini.styledImageRequest Stub.pngPart Stub.pngPart).
  destruct (generateStyledImage_reads_first_part
              Stub.runtime service Stub.pngImage Stub.pngImage
              (Some (fun _ u => u)) Stub.fresh 3 (Stub.afterRequests 2 request)
              Stub.pngPart Stub.pngPart Stub.imageResponse 3%nat)
    as [Hres [_ [Hcalls [Htrace Hreq]]]].
  - vm_compute. reflexivity.
  - vm_compute. reflexivity.
  - next_attempt_by_evaluation 2 (Stub.afterRequests 1 request)
                               (new_Error "503 Service Unavailable")
                               (Stub.afterRequests 2 request).
    next_attempt_by_evaluation 1 (Stub.afterRequests 0 request)
                               (new_Error "503 Service Unavailable")
                               (Stub.afterRequests 1 request).
    apply starts_first.
  - reflexivity.
  - split; [exact (Hres Stub.pngBlob eq_refl) |].
    split; [exact Hcalls |].
    split; [fold r in Htrace; rewrite Htrace; reflexivity |].
    fold r in Hreq. rewrite Hreq. reflexivity.
Defined.

(** Against C7 as stated: the response contains a part with inline image
    data, in second place, and the operation rejects. *)
Lemma generateStyledImage_skips_later_image_part :
  let service := Stub.answering [] (Resolved Stub.captionedImageResponse) in
  let r := Gemini.generateStyledImage Stub.runtime service Stub.pngImage
                                      Stub.pngImage None Stub.fresh in
  hasImagePart Stub.captionedImageResponse = true /\
  Retry.outcome r = Rejected (new_ApiError (Some Gemini.noImageMessage)) /\
  Retry.outcome r <> Resolved Stub.pngImage.
Proof.
  intros service r.
  assert (Retry.outcome r = Rejected (new_ApiError (Some Gemini.noImageMessage)))
    as E by (vm_compute; reflexivity).
  split; [reflexivity |]. split; [exact E |]. rewrite E. discriminate.
Qed.

(** The two scenarios of the specification for [analyzeTrend]. *)
Lemma analyzeTrend_resolves_when_text_parses_witness :
  (let answer :=
     Stub.textResponse (Stub.quotes "{'score': 72, 'analysis': 'Bold streetwear mix.'}") in
   let r := Gemini.analyzeTrend Stub.runtime (Stub.answering [] (Resolved answer))
                                Stub.pngImage None Stub.fresh in
   Retry.outcome r =
   Resolved (Json.JObject [("score", Json.JNumber 72 0);
                           ("analysis", Json.JString "Bold streetwear mix.")]))
  /\
  (let answer := Stub.textResponse "oops" in
   let r := Gemini.analyzeTrend Stub.runtime (Stub.answering [] (Resolved answer))
                                Stub.pngImage None Stub.fresh in
   Retry.outcome r = Rejected (new_ApiError (Some Gemini.invalidFormatMessage)) /\
   Gemini.errorLog (Retry.final r) = [("Failed to parse JSON response:", Some "oops")]).
Proof.
  split; intros answer r.
  - destruct (analyzeTrend_resolves_when_text_parses
                Stub.runtime (Stub.answering [] (Resolved answer)) Stub.pngImage
                None Stub.fresh 1 Stub.fresh Stub.pngPart answer 1%nat)
      as [Hiff _].
    + vm_compute. reflexivity.
    + apply starts_first.
    + reflexivity.
    + apply Hiff. eexists. split; [reflexivity | vm_compute; reflexivity].
  - destruct (analyzeTrend_resolves_when_text_parses
                Stub.runtime (Stub.answering [] (Resolved answer)) Stub.pngImage
                None Stub.fresh 1 Stub.fresh Stub.pngPart answer 1%nat)
      as [_ [Hfail _]].
    + vm_compute. reflexivity.
    + apply starts_first.
    + reflexivity.
    + apply Hfail. right. exists "oops", "Unexpected token in JSON".
      split; [reflexivity | vm_compute; reflexivity].
Defined.

(** Against C8 as stated: the text parses but does not match the schema
    (no integer score, or a score outside [0,100] and no string
    analysis), and the operation resolves with the parsed value. *)
Lemma analyzeTrend_accepts_any_json :
  (let answer := Stub.textResponse (Stub.quotes "{'score':'high'}") in
   let r := Gemini.analyzeTrend Stub.runtime (Stub.answering [] (Resolved answer))
                                Stub.pngImage None Stub.fresh in
   Retry.outcome r = Resolved (Json.JObject [("score", Json.JString "high")]) /\
   matchesTrendSchema (Json.JObject [("score", Json.JString "high")]) = false)
  /\
  (let answer := Stub.textResponse (Stub.quotes "{'score':150,'analysis':7}") in
   let r := Gemini.analyzeTrend Stub.runtime (Stub.answering [] (Resolved answer))
                                Stub.pngImage None Stub.fresh in
   Retry.outcome r = Resolved (Json.JObject [("score", Json.JNumber 150 0);
                                             ("analysis", Json.JNumber 7 0)]) /\
   matchesTrendSchema (Json.JObject [("score", Json.JNumber 150 0);
                                     ("analysis", Json.JNumber 7 0)]) = false).
Proof. split; intros answer r; split; vm_compute; reflexivity. Qed.



(* ================================================================== *)
(** * Part IV: further properties of the code                          *)
(* ================================================================== *)

(** ** More on the retry orchestrator *)

Section OrchestratorInvariants.

Context {W T : Type}.
Variable apiCall : W -> Outcome T * W.
Variable onRetry : option (Z -> W -> W).

Abbreviation attempts := (Retry.attempts apiCall onRetry).
Abbreviation callGeminiWithRetry := (Retry.callGeminiWithRetry apiCall onRetry).
Abbreviation segments := (retrySegments onRetry).
Abbreviation Starts := (AttemptStarts apiCall onRetry).

(** X1. A failure whose message carries none of the substrings the
    orchestrator looks for ends the run at the attempt where it occurs,
    whichever attempt that is: the run rejects with the base [ApiError]
    carrying the text of the original failure (the empty text when the
    thrown value has no message), the failing invocation is the last
    action of the run, and nothing is retried. *)
Theorem unclassified_failure_is_wrapped
        (w0 : W) (k : Z) (wk : W) (e : JsError) (w1 : W) :
  Starts w0 k wk ->
  apiCall wk = (Rejected e, w1) ->
  ~ RateLimitText (textOf e) ->
  ~ ServerText (textOf e) ->
  ~ InvalidInputText (textOf e) ->
  Retry.outcome (callGeminiWithRetry w0)
    = Rejected (mkError ApiError (Some (textOf e))) /\
  Retry.final (callGeminiWithRetry w0) = w1 /\
  Retry.trace (callGeminiWithRetry w0)
    = segments 1 (Z.to_nat (k - 1)) ++ [EvCall] /\
  calls (Retry.trace (callGeminiWithRetry w0)) = Z.to_nat k.
Proof.
  intros Hs Hc Hr Hsv Hi.
  pose proof (run_from_attempt _ _ _ _ _ Hs) as [Hk _].
  rewrite (run_last_step _ _ w0 k wk _ w1 Hs
             (fun rem le =>
                attempts_generic _ _ rem k le wk e w1 Hc Hr Hsv Hi)).
  cbn [Retry.outcome Retry.final Retry.trace].
  rewrite calls_run_trace by lia.
  repeat split.
  unfold new_ApiError, messageOf, textOf. now destruct (message e).
Qed.

(** X2. At the last allowed attempt only the message of that attempt
    counts: when the third invocation fails with a server-error message
    that is neither a rate-limit nor an invalid-input one, the run
    rejects with [ServerError] after three invocations and the two
    sleeps, whatever retriable messages the first two failures carried. *)
Theorem last_attempt_decides_the_kind (w0 w3 : W) (e : JsError) (w1 : W) :
  Starts w0 Retry.MAX_RETRIES w3 ->
  apiCall w3 = (Rejected e, w1) ->
  ServerText (textOf e) ->
  ~ RateLimitText (textOf e) ->
  ~ InvalidInputText (textOf e) ->
  Retry.outcome (callGeminiWithRetry w0) = Rejected (new_ServerError None) /\
  calls (Retry.trace (callGeminiWithRetry w0)) = 3%nat /\
  sleeps (Retry.trace (callGeminiWithRetry w0)) = [1000; 2000].
Proof.
  intros Hs Hc Hsv Hr Hi.
  rewrite (run_last_step _ _ w0 _ w3 (Rejected (new_ServerError None)) w1 Hs).
  - cbn [Retry.outcome Retry.trace].
    rewrite calls_run_trace, sleeps_segments by (unfold Retry.MAX_RETRIES; lia).
    now split.
  - intros rem le.
    apply (attempts_last_server _ _ rem Retry.MAX_RETRIES le w3 e w1); auto. lia.
Qed.

(** On thunks that throw values with a readable message, every rejection
    is an [ApiError] or one of its subclasses and has a message. *)
Lemma attempts_reject_with_ApiError (rem : nat) :
  forall (a : Z) (le : option JsError) (w : W),
    (0 < rem)%nat ->
    Retry.MAX_RETRIES < a + Z.of_nat rem ->
    forall e,
      Retry.outcome (attempts rem a le w) = Rejected e ->
      instanceofApiError e = true /\ exists m, message e = Some m.
Proof.
  induction rem as [|rem IH]; intros a le w Hpos Hinv e; [lia |].
  cbn [Retry.attempts].
  destruct (apiCall w) as [[v|e1] w1]; [discriminate |].
  destruct (Retry.isInvalidInputError _);
    [intros E; injection E as <-; split; [reflexivity | now eexists] |].
  destruct ((_ || _) && (a <? Retry.MAX_RETRIES)) eqn:Hretry.
  - apply andb_true_iff in Hretry. destruct Hretry as [_ Hlt].
    apply Z.ltb_lt in Hlt.
    destruct (Retry.callOnRetry onRetry a w1) as [w2 called].
    cbn [Retry.after Retry.outcome]. apply IH; lia.
  - destruct (Retry.isRateLimitError _);
      [intros E; injection E as <-; split; [reflexivity | now eexists] |].
    destruct (Retry.isServerError _);
      intros E; injection E as <-; (split; [reflexivity |]);
      [now eexists |].
    unfold new_ApiError, messageOf. destruct (message e1); now eexists.
Qed.


End OrchestratorInvariants.

(** ** The orchestrator on any thrown value and any callback *)

Section AnyThrownValue.

Import Thrown SpecMore.

Context {W T : Type}.
Variable typeErrorText : Value -> string.
Variable apiCall : W -> Completion T * W.
Variable onRetry : option (Z -> W -> Completion unit * W).

Abbreviation attemptsAny := (RetryAny.attempts typeErrorText apiCall onRetry).
Abbreviation runAny := (RetryAny.callGeminiWithRetry typeErrorText apiCall onRetry).
Abbreviation StartsAny := (AttemptStartsAny apiCall onRetry).
Abbreviation segmentsAny := (retrySegmentsAny onRetry).

Lemma TextOf_errorMessage (e : Value) (s : string) :
  TextOf e s -> RetryAny.errorMessage e = Some (JsString.toLowerCase s).
Proof.
  intros H. destruct H; try reflexivity.
  unfold RetryAny.errorMessage, RetryAny.messageOf.
  now destruct (JsString.toLowerCase s).
Qed.

Lemma errorMessage_TextOf (e : Value) (msg : string) :
  RetryAny.errorMessage e = Some msg ->
  exists s, TextOf e s /\ msg = JsString.toLowerCase s.
Proof.
  destruct e as [|t|c [| |s|shown]]; try discriminate; intros H.
  - exists "". split; [constructor | now injection H as <-].
  - exists "". split; [constructor | now injection H as <-].
  - exists "". split; [constructor | now injection H as <-].
  - exists s. split; [constructor |].
    rewrite (TextOf_errorMessage _ _ (text_of_string c s)) in H.
    now injection H as <-.
Qed.

Lemma Unreadable_errorMessage (e : Value) :
  Unreadable e <-> RetryAny.errorMessage e = None.
Proof.
  split.
  - now destruct 1.
  - destruct e as [|t|c [| |s|shown]]; try discriminate; intros _; constructor.
Qed.

Lemma TextOf_not_Unreadable (e : Value) (s : string) :
  TextOf e s -> ~ Unreadable e.
Proof. intros H U. destruct U; inversion H. Qed.

(** The flags of the code on a lower-cased text. *)
Lemma rate_flag_text (s : string) :
  Retry.isRateLimitError (JsString.toLowerCase s) = true <-> RateLimitText s.
Proof.
  pose proof (isRateLimitError_iff (mkError Error (Some s))) as H.
  now rewrite errorMessage_text in H.
Qed.

Lemma server_flag_text (s : string) :
  Retry.isServerError (JsString.toLowerCase s) = true <-> ServerText s.
Proof.
  pose proof (isServerError_iff (mkError Error (Some s))) as H.
  now rewrite errorMessage_text in H.
Qed.

Lemma invalid_flag_text (s : string) :
  Retry.isInvalidInputError (JsString.toLowerCase s) = true <-> InvalidInputText s.
Proof.
  pose proof (isInvalidInputError_iff (mkError Error (Some s))) as H.
  now rewrite errorMessage_text in H.
Qed.

Lemma retriable_flags_text (s : string) :
  Retry.isInvalidInputError (JsString.toLowerCase s) = false ->
  Retry.isRateLimitError (JsString.toLowerCase s)
  || Retry.isServerError (JsString.toLowerCase s) = true ->
  Retriable s.
Proof.
  intros Hi Hr. split.
  - apply orb_true_iff in Hr. destruct Hr as [Hr | Hr].
    + left. now apply rate_flag_text.
    + right. now apply server_flag_text.
  - intros H. apply invalid_flag_text in H. congruence.
Qed.

Lemma Retriable_flags_text (s : string) :
  Retriable s ->
  Retry.isInvalidInputError (JsString.toLowerCase s) = false /\
  Retry.isRateLimitError (JsString.toLowerCase s)
  || Retry.isServerError (JsString.toLowerCase s) = true.
Proof.
  intros [Hr Hi]. split.
  - destruct (Retry.isInvalidInputError _) eqn:E; [| reflexivity].
    apply invalid_flag_text in E. contradiction.
  - apply orb_true_iff. destruct Hr as [Hr | Hr].
    + left. now apply rate_flag_text.
    + right. now apply server_flag_text.
Qed.

(** What calling the callback can do. *)
Lemma callOnRetry_cases (a : Z) (w : W) :
  (exists w2,
      Returns onRetry a w w2 /\
      RetryAny.callOnRetry onRetry a w
      = ((Normal tt, w2), onRetryEventsAny onRetry a))
  \/
  (exists f v w2,
      onRetry = Some f /\ f a w = (Throw v, w2) /\
      RetryAny.callOnRetry onRetry a w = ((Throw v, w2), [EvOnRetry a])).
Proof.
  unfold RetryAny.callOnRetry, Returns, onRetryEventsAny.
  destruct onRetry as [f|]; [| left; now exists w].
  destruct (f a w) as [[[]|v] w2] eqn:E.
  - left. now exists w2.
  - right. now exists f, v, w2.
Qed.

Lemma Returns_callOnRetry (a : Z) (w w2 : W) :
  Returns onRetry a w w2 ->
  RetryAny.callOnRetry onRetry a w = ((Normal tt, w2), onRetryEventsAny onRetry a).
Proof.
  unfold RetryAny.callOnRetry, Returns, onRetryEventsAny.
  destruct onRetry as [f|]; [intros -> | intros ->]; reflexivity.
Qed.

Lemma any_after_nil (r : RetryAny.Run W T) : RetryAny.after [] r = r.
Proof. now destruct r. Qed.

Lemma any_after_after (a b : list Event) (r : RetryAny.Run W T) :
  RetryAny.after a (RetryAny.after b r) = RetryAny.after (a ++ b) r.
Proof. unfold RetryAny.after; simpl. now rewrite app_assoc. Qed.

(** One iteration of the loop. *)
Lemma any_attempt_retried rem a le w e text w1 w2 :
  apiCall w = (Throw e, w1) ->
  TextOf e text ->
  Retriable text ->
  a < Retry.MAX_RETRIES ->
  Returns onRetry a w1 w2 ->
  attemptsAny (S rem) a le w
  = RetryAny.after (retrySegmentAny onRetry a) (attemptsAny rem (a + 1) (Some e) w2).
Proof.
  intros Hc Ht Hr Ha Hret. cbn [RetryAny.attempts]. rewrite Hc.
  rewrite (TextOf_errorMessage _ _ Ht).
  destruct (Retriable_flags_text _ Hr) as [-> ->].
  apply Z.ltb_lt in Ha. rewrite Ha. cbn [andb].
  now rewrite (Returns_callOnRetry _ _ _ Hret).
Qed.

Lemma any_attempt_unreadable rem a le w e w1 :
  apiCall w = (Throw e, w1) ->
  Unreadable e ->
  attemptsAny (S rem) a le w
  = RetryAny.mkRun (Throw (RetryAny.typeError typeErrorText e)) w1 [EvCall].
Proof.
  intros Hc Hu. cbn [RetryAny.attempts]. rewrite Hc.
  apply Unreadable_errorMessage in Hu. now rewrite Hu.
Qed.

Lemma any_attempt_callback_throws rem a le w e text w1 f v w2 :
  apiCall w = (Throw e, w1) ->
  TextOf e text ->
  Retriable text ->
  a < Retry.MAX_RETRIES ->
  onRetry = Some f ->
  f a w1 = (Throw v, w2) ->
  attemptsAny (S rem) a le w = RetryAny.mkRun (Throw v) w2 [EvCall; EvOnRetry a].
Proof.
  intros Hc Ht Hr Ha Hcb Hf. cbn [RetryAny.attempts]. rewrite Hc.
  rewrite (TextOf_errorMessage _ _ Ht).
  destruct (Retriable_flags_text _ Hr) as [-> ->].
  apply Z.ltb_lt in Ha. rewrite Ha. cbn [andb].
  destruct (callOnRetry_cases a w1) as [[w2' [Hret _]] | [f' [v' [w2' [Hcb' [Hf' ->]]]]]].
  - unfold Returns in Hret. rewrite Hcb in Hret. congruence.
  - rewrite Hcb in Hcb'. injection Hcb' as <-. rewrite Hf in Hf'.
    now injection Hf' as <- <-.
Qed.

(** Each iteration starts by invoking the thunk. *)
Lemma any_attempt_invokes rem a le w :
  exists tl, RetryAny.trace (attemptsAny (S rem) a le w) = EvCall :: tl.
Proof.
  cbn [RetryAny.attempts].
  destruct (apiCall w) as [[v|e] w1]; [now eexists |].
  destruct (RetryAny.errorMessage e); [| now eexists].
  destruct (RetryAny.callOnRetry onRetry a w1) as [[[u|v] w2] called];
    repeat match goal with
           | |- context [if ?b then _ else _] => destruct b
           end; now eexists.
Qed.

Lemma segmentsAny_snoc (a : Z) (n : nat) :
  segmentsAny a (S n) = segmentsAny a n ++ retrySegmentAny onRetry (a + Z.of_nat n).
Proof.
  unfold retrySegmentsAny. rewrite zseq_snoc, flat_map_app. simpl.
  now rewrite app_nil_r.
Qed.

Lemma calls_segmentsAny (a : Z) (n : nat) (tl : list Event) :
  calls (segmentsAny a n ++ tl) = (n + calls tl)%nat.
Proof.
  revert a; induction n as [|n IH]; intros a; [reflexivity |].
  change (segmentsAny a (S n))
    with (retrySegmentAny onRetry a ++ segmentsAny (a + 1) n).
  rewrite <- app_assoc.
  unfold calls in *. unfold retrySegmentAny, onRetryEventsAny.
  destruct onRetry; simpl; now rewrite IH.
Qed.

Lemma sleeps_segmentsAny (a : Z) (n : nat) (tl : list Event) :
  sleeps (segmentsAny a n ++ tl) = map Retry.backoffDelay (zseq a n) ++ sleeps tl.
Proof.
  revert a; induction n as [|n IH]; intros a; [reflexivity |].
  change (segmentsAny a (S n))
    with (retrySegmentAny onRetry a ++ segmentsAny (a + 1) n).
  rewrite <- app_assoc.
  unfold retrySegmentAny, onRetryEventsAny.
  destruct onRetry; simpl; now rewrite IH.
Qed.

Lemma onRetryArgs_segmentsAny (a : Z) (n : nat) (tl : list Event) :
  onRetryArgs (segmentsAny a n ++ tl)
  = match onRetry with
    | Some _ => zseq a n
    | None => []
    end ++ onRetryArgs tl.
Proof.
  revert a; induction n as [|n IH]; intros a; [now destruct onRetry |].
  change (segmentsAny a (S n))
    with (retrySegmentAny onRetry a ++ segmentsAny (a + 1) n).
  rewrite <- app_assoc.
  unfold retrySegmentAny, onRetryEventsAny.
  specialize (IH (a + 1)).
  destruct onRetry; simpl; now rewrite IH.
Qed.

(** The run up to the start of attempt [k]. *)
Lemma any_run_from_attempt (w0 : W) (k : Z) (wk : W) :
  StartsAny w0 k wk ->
  1 <= k <= Retry.MAX_RETRIES /\
  exists le,
    runAny w0
    = RetryAny.after (segmentsAny 1 (Z.to_nat (k - 1)))
                     (attemptsAny (Z.to_nat (Retry.MAX_RETRIES + 1 - k)) k le wk).
Proof.
  induction 1 as [|k w e text w1 w2 Hs [Hk [le IH]] Hcall Htext Hretr Hlt Hret].
  - split; [unfold Retry.MAX_RETRIES; lia |].
    exists None. simpl. now rewrite any_after_nil.
  - split; [lia |].
    exists (Some e). rewrite IH.
    replace (Z.to_nat (Retry.MAX_RETRIES + 1 - k))
      with (S (Z.to_nat (Retry.MAX_RETRIES + 1 - (k + 1)))) by lia.
    rewrite (any_attempt_retried _ _ _ _ _ _ _ _ Hcall Htext Hretr Hlt Hret),
      any_after_after.
    replace (Z.to_nat (k + 1 - 1)) with (S (Z.to_nat (k - 1))) by lia.
    rewrite segmentsAny_snoc.
    replace (1 + Z.of_nat (Z.to_nat (k - 1))) with k by lia.
    reflexivity.
Qed.

Lemma any_run_last_step (w0 : W) (k : Z) (wk : W) (o : Completion T) (wf : W)
      (last : list Event) :
  StartsAny w0 k wk ->
  (forall rem le, attemptsAny (S rem) k le wk = RetryAny.mkRun o wf last) ->
  runAny w0 = RetryAny.mkRun o wf (segmentsAny 1 (Z.to_nat (k - 1)) ++ last).
Proof.
  intros Hs Hstep.
  destruct (any_run_from_attempt _ _ _ Hs) as [Hk [le ->]].
  replace (Z.to_nat (Retry.MAX_RETRIES + 1 - k))
    with (S (Z.to_nat (Retry.MAX_RETRIES - k))) by lia.
  now rewrite Hstep.
Qed.

(** What the loop entered at a started attempt can reject with. *)
Lemma any_rejection_kinds (w0 : W) (rem : nat) :
  forall (a : Z) (le : option Value) (w : W),
    StartsAny w0 a w ->
    (0 < rem)%nat ->
    Retry.MAX_RETRIES < a + Z.of_nat rem ->
    forall v,
      RetryAny.outcome (attemptsAny rem a le w) = Throw v ->
      IsApiError v
      \/ (exists k wk u w1,
             StartsAny w0 k wk /\ apiCall wk = (Throw u, w1) /\ Unreadable u /\
             v = Object TypeError (Str (typeErrorText u)))
      \/ (exists f k wk e w1 w2,
             onRetry = Some f /\ StartsAny w0 k wk /\
             apiCall wk = (Throw e, w1) /\ f k w1 = (Throw v, w2)).
Proof.
  assert (forall c m,
             c = ApiError \/ c = RateLimitError \/ c = InvalidInputError
             \/ c = ServerError ->
             IsApiError (Object c (Str m))) as Hcls
      by (intros c m H; now exists c, m).
  induction rem as [|rem IH]; intros a le w Hs Hpos Hinv v; [lia |].
  cbn [RetryAny.attempts].
  destruct (apiCall w) as [[r|e] w1] eqn:Hc; [discriminate |].
  destruct (RetryAny.errorMessage e) as [msg|] eqn:Hm.
  2:{ intros E; injection E as <-. right; left.
      exists a, w, e, w1. repeat split; try assumption.
      now apply Unreadable_errorMessage. }
  destruct (errorMessage_TextOf _ _ Hm) as [text [Ht ->]].
  destruct (Retry.isInvalidInputError _) eqn:Hi;
    [intros E; injection E as <-; left; apply Hcls; tauto |].
  destruct ((_ || _) && (a <? Retry.MAX_RETRIES)) eqn:Hretry.
  - apply andb_true_iff in Hretry. destruct Hretry as [Hkind Hlt].
    apply Z.ltb_lt in Hlt.
    pose proof (retriable_flags_text _ Hi Hkind) as Hretr.
    destruct (callOnRetry_cases a w1)
      as [[w2 [Hret ->]] | [f [v' [w2 [Hcb [Hf ->]]]]]].
    + cbn [RetryAny.after RetryAny.outcome].
      apply IH; try lia.
      exact (starts_any_next _ _ w0 a w e text w1 w2 Hs Hc Ht Hretr Hlt Hret).
    + intros E; injection E as <-. right; right.
      now exists f, a, w, e, w1, w2.
  - destruct (Retry.isRateLimitError _);
      [intros E; injection E as <-; left; apply Hcls; tauto |].
    destruct (Retry.isServerError _);
      [intros E; injection E as <-; left; apply Hcls; tauto |].
    intros E; injection E as <-. left.
    unfold RetryAny.wrapped, ofError, new_ApiError, messageOf.
    cbn [Errors.cls Errors.message].
    destruct (RetryAny.messageOf e) as [[| |s|shown]|]; apply Hcls; tauto.
Qed.

(** Further iterations, and another value of [lastError], change nothing: the
    loop never runs out and the statement after it is not reached. *)
Lemma any_attempts_surplus (rem : nat) :
  forall (n : nat) (a : Z) (le le' : option Value) (w : W),
    (0 < rem)%nat ->
    Retry.MAX_RETRIES < a + Z.of_nat rem ->
    attemptsAny (rem + n) a le w = attemptsAny rem a le' w.
Proof.
  induction rem as [|rem IH]; intros n a le le' w Hpos Hinv; [lia |].
  cbn [RetryAny.attempts Nat.add].
  destruct (apiCall w) as [[r|e] w1]; [reflexivity |].
  destruct (RetryAny.errorMessage e) as [msg|]; [| reflexivity].
  destruct (Retry.isInvalidInputError _); [reflexivity |].
  destruct ((_ || _) && (a <? Retry.MAX_RETRIES)) eqn:Hretry; [| reflexivity].
  apply andb_true_iff in Hretry. destruct Hretry as [_ Hlt].
  apply Z.ltb_lt in Hlt.
  destruct (RetryAny.callOnRetry onRetry a w1) as [[[u|v] w2] called];
    [| reflexivity].
  rewrite (IH n (a + 1) (Some e) (Some e) w2) by lia. reflexivity.
Qed.

(** X3. What [callGeminiWithRetry] rejects with, for the thrown values
    of [Thrown.Value] and whatever the callback does. A rejection is an
    [ApiError] or one of its three subclasses, with a string for its
    message, except in two cases where a raw value leaves the
    orchestrator: the
    thunk threw, at some attempt of the run, a value whose message the
    catch block cannot read or lower-case ([null], [undefined], or an
    object whose [message] is neither a string nor null nor undefined),
    and the rejection is the engine's [TypeError]; or the callback threw,
    and the rejection is what it threw. So when every value thrown by
    the thunk in the run has a message that is a string, null or absent,
    and the callback returns whenever it is called, every rejection passes
    the caller's test [err instanceof ApiError]. A thrown value that
    cannot be read ends the run at the attempt where it occurs with that
    [TypeError], which is not an [ApiError]. And the loop never runs out:
    with more iterations allowed, and with any initial [lastError], the
    run is the same, so the statement after the loop is not reached. *)
Theorem rejection_is_ApiError_or_raw (w0 : W) :
  (forall v,
      RetryAny.outcome (runAny w0) = Throw v ->
      IsApiError v
      \/ (exists k wk u w1,
             StartsAny w0 k wk /\ apiCall wk = (Throw u, w1) /\ Unreadable u /\
             v = Object TypeError (Str (typeErrorText u)))
      \/ (exists f k wk e w1 w2,
             onRetry = Some f /\ StartsAny w0 k wk /\
             apiCall wk = (Throw e, w1) /\ f k w1 = (Throw v, w2)))
  /\
  ((forall k wk u w1,
       StartsAny w0 k wk -> apiCall wk = (Throw u, w1) -> exists text, TextOf u text) ->
   (forall f k wk e w1,
       onRetry = Some f -> StartsAny w0 k wk -> apiCall wk = (Throw e, w1) ->
       exists w2, f k w1 = (Normal tt, w2)) ->
   forall v,
     RetryAny.outcome (runAny w0) = Throw v ->
     IsApiError v /\ instanceofApiError v = true)
  /\
  (forall k wk u w1,
      StartsAny w0 k wk -> apiCall wk = (Throw u, w1) -> Unreadable u ->
      runAny w0
      = RetryAny.mkRun (Throw (Object TypeError (Str (typeErrorText u)))) w1
                       (segmentsAny 1 (Z.to_nat (k - 1)) ++ [EvCall]) /\
      calls (RetryAny.trace (runAny w0)) = Z.to_nat k /\
      ~ IsApiError (Object TypeError (Str (typeErrorText u))) /\
      instanceofApiError (Object TypeError (Str (typeErrorText u))) = false)
  /\
  (forall (n : nat) (le : option Value),
      attemptsAny (3 + n) 1 le w0 = runAny w0).
Proof.
  assert (forall v,
             RetryAny.outcome (runAny w0) = Throw v ->
             IsApiError v
             \/ (exists k wk u w1,
                    StartsAny w0 k wk /\ apiCall wk = (Throw u, w1) /\
                    Unreadable u /\
                    v = Object TypeError (Str (typeErrorText u)))
             \/ (exists f k wk e w1 w2,
                    onRetry = Some f /\ StartsAny w0 k wk /\
                    apiCall wk = (Throw e, w1) /\ f k w1 = (Throw v, w2)))
    as Hkinds.
  { intros v. apply (any_rejection_kinds w0 3 1 None w0).
    - apply starts_any_first.
    - lia.
    - unfold Retry.MAX_RETRIES; lia. }
  split; [exact Hkinds |]. split; [| split].
  - intros Hreadable Hreturns v Hv.
    destruct (Hkinds v Hv)
      as [Hapi | [[k [wk [u [w1 [Hs [Hc [Hu _]]]]]]]
                  | [f [k [wk [e [w1 [w2 [Hcb [Hs [Hc Hf]]]]]]]]]]].
    + split; [exact Hapi |].
      destruct Hapi as [c [m [-> [-> | [-> | [-> | ->]]]]]]; reflexivity.
    + destruct (Hreadable k wk u w1 Hs Hc) as [text Ht].
      destruct (TextOf_not_Unreadable _ _ Ht Hu).
    + destruct (Hreturns f k wk e w1 Hcb Hs Hc) as [w2' Hf'].
      rewrite Hf in Hf'. discriminate.
  - intros k wk u w1 Hs Hc Hu.
    pose proof (any_run_from_attempt _ _ _ Hs) as [Hk _].
    rewrite (any_run_last_step w0 k wk _ w1 [EvCall] Hs
               (fun rem le => any_attempt_unreadable rem k le wk u w1 Hc Hu)).
    cbn [RetryAny.trace]. rewrite calls_segmentsAny.
    split; [reflexivity |]. split; [unfold calls; simpl; lia |].
    split; [| reflexivity].
    intros [c [m [E Hcls]]]. injection E as <- _.
    destruct Hcls as [H | [H | [H | H]]]; discriminate.
  - intros n le. unfold RetryAny.callGeminiWithRetry.
    change (Z.to_nat Retry.MAX_RETRIES) with 3%nat.
    apply any_attempts_surplus; [lia | unfold Retry.MAX_RETRIES; lia].
Qed.

(** X5. The callback is called inside the catch block, unguarded, so it
    can end the run. When an attempt [k] that would be retried calls a
    callback that throws, the run rejects with the thrown value as it
    is, neither classified nor wrapped; the call of the callback is the
    last action of the run, with no warning logged and no sleep after
    it, and the thunk has been invoked [k] times. When instead the
    callback returns, or there is none, attempt [k + 1] takes place and
    the thunk is invoked again after the warning and the sleep. *)
Theorem onRetry_that_throws_ends_the_run
        (w0 : W) (k : Z) (wk : W) (e : Value) (text : string) (w1 : W) :
  StartsAny w0 k wk ->
  apiCall wk = (Throw e, w1) ->
  TextOf e text ->
  Retriable text ->
  k < Retry.MAX_RETRIES ->
  (forall f v w2,
      onRetry = Some f ->
      f k w1 = (Throw v, w2) ->
      runAny w0
      = RetryAny.mkRun (Throw v) w2
                       (segmentsAny 1 (Z.to_nat (k - 1)) ++ [EvCall; EvOnRetry k]) /\
      calls (RetryAny.trace (runAny w0)) = Z.to_nat k /\
      sleeps (RetryAny.trace (runAny w0))
      = map Retry.backoffDelay (zseq 1 (Z.to_nat (k - 1))) /\
      onRetryArgs (RetryAny.trace (runAny w0)) = zseq 1 (Z.to_nat k))
  /\
  (forall w2,
      Returns onRetry k w1 w2 ->
      StartsAny w0 (k + 1) w2 /\
      exists rest,
        RetryAny.trace (runAny w0)
        = segmentsAny 1 (Z.to_nat (k - 1))
            ++ retrySegmentAny onRetry k ++ EvCall :: rest).
Proof.
  intros Hs Hc Ht Hretr Hlt.
  pose proof (any_run_from_attempt _ _ _ Hs) as [Hk _].
  split.
  - intros f v w2 Hcb Hf.
    rewrite (any_run_last_step w0 k wk _ w2 [EvCall; EvOnRetry k] Hs
               (fun rem le =>
                  any_attempt_callback_throws rem k le wk e text w1 f v w2
                                              Hc Ht Hretr Hlt Hcb Hf)).
    cbn [RetryAny.trace].
    rewrite calls_segmentsAny, sleeps_segmentsAny, onRetryArgs_segmentsAny.
    split; [reflexivity |]. split; [unfold calls; simpl; lia |].
    split; [simpl; now rewrite app_nil_r |].
    rewrite Hcb.
    replace (Z.to_nat k) with (S (Z.to_nat (k - 1))) by lia.
    rewrite zseq_snoc. cbn [onRetryArgs]. f_equal. f_equal. lia.
  - intros w2 Hret.
    pose proof (starts_any_next _ _ w0 k wk e text w1 w2 Hs Hc Ht Hretr Hlt Hret)
      as Hnext.
    split; [exact Hnext |].
    destruct (any_run_from_attempt _ _ _ Hnext) as [_ [le ->]].
    replace (Z.to_nat (Retry.MAX_RETRIES + 1 - (k + 1)))
      with (S (Z.to_nat (Retry.MAX_RETRIES - (k + 1)))) by lia.
    destruct (any_attempt_invokes (Z.to_nat (Retry.MAX_RETRIES - (k + 1)))
                                  (k + 1) le w2) as [rest Hrest].
    exists rest. cbn [RetryAny.after RetryAny.trace]. rewrite Hrest.
    replace (Z.to_nat (k + 1 - 1)) with (S (Z.to_nat (k - 1))) by lia.
    rewrite segmentsAny_snoc, <- app_assoc.
    replace (1 + Z.of_nat (Z.to_nat (k - 1))) with k by lia.
    reflexivity.
Qed.

End AnyThrownValue.

(** On the thunks and callbacks of [Retry], [RetryAny] is [Retry]. *)
Lemma attempts_refined {W T : Type} (typeErrorText : Thrown.Value -> string)
      (apiCall : W -> Outcome T * W) (onRetry : option (Z -> W -> W)) (rem : nat) :
  forall (a : Z) (le : option JsError) (w : W),
    RetryAny.attempts typeErrorText (RetryAny.ofThunk apiCall)
                      (option_map RetryAny.ofCallback onRetry)
                      rem a (option_map Thrown.ofError le) w
    = RetryAny.ofRun (Retry.attempts apiCall onRetry rem a le w).
Proof.
  induction rem as [|rem IH]; intros a le w.
  - now destruct le.
  - cbn [RetryAny.attempts Retry.attempts]. unfold RetryAny.ofThunk.
    destruct (apiCall w) as [[v|e] w1]; [reflexivity |].
    cbn [fst snd Thrown.ofOutcome].
    assert (RetryAny.errorMessage (Thrown.ofError e) = Some (Retry.errorMessage e))
      as ->.
    { unfold RetryAny.errorMessage, Retry.errorMessage, Thrown.ofError.
      cbn [RetryAny.messageOf]. now destruct (message e). }
    destruct (Retry.isInvalidInputError _); [reflexivity |].
    destruct ((_ || _) && (a <? Retry.MAX_RETRIES)).
    + unfold RetryAny.callOnRetry, Retry.callOnRetry.
      specialize (IH (a + 1) (Some e)).
      destruct onRetry as [f|]; cbn [option_map RetryAny.ofCallback];
        cbn [option_map] in IH; rewrite IH; reflexivity.
    + destruct (Retry.isRateLimitError _); [reflexivity |].
      destruct (Retry.isServerError _); [reflexivity |].
      unfold RetryAny.wrapped, Thrown.ofError. cbn [RetryAny.messageOf].
      now destruct (message e).
Qed.

(** ** More on the service operations *)

Section RunComparison.

Context {W T : Type}.

(** What a retried attempt adds to the projections of the trace. *)
Lemma retry_events_projection (cb : option (Z -> W -> W)) (a : Z) (w : W)
      (called : list Event) (line : string) (d : Z) (tl : list Event) :
  called = snd (Retry.callOnRetry cb a w) ->
  sleeps ((EvCall :: called ++ [EvWarn line; EvSleep d]) ++ tl) = d :: sleeps tl /\
  calls ((EvCall :: called ++ [EvWarn line; EvSleep d]) ++ tl) = S (calls tl).
Proof.
  unfold Retry.callOnRetry. destruct cb; intros ->; split; reflexivity.
Qed.

(** Two runs of the same thunk, from worlds that the thunk cannot tell
    apart and with callbacks that keep them so, go the same way. *)
Lemma attempts_simulation (Rel : W -> W -> Prop)
      (apiCall : W -> Outcome T * W) (cb1 cb2 : option (Z -> W -> W)) :
  (forall w w', Rel w w' ->
                fst (apiCall w) = fst (apiCall w') /\
                Rel (snd (apiCall w)) (snd (apiCall w'))) ->
  (forall k w w', Rel w w' ->
                  Rel (fst (Retry.callOnRetry cb1 k w))
                      (fst (Retry.callOnRetry cb2 k w'))) ->
  forall rem a le w w',
    Rel w w' ->
    Retry.outcome (Retry.attempts apiCall cb1 rem a le w)
    = Retry.outcome (Retry.attempts apiCall cb2 rem a le w') /\
    Rel (Retry.final (Retry.attempts apiCall cb1 rem a le w))
        (Retry.final (Retry.attempts apiCall cb2 rem a le w')) /\
    sleeps (Retry.trace (Retry.attempts apiCall cb1 rem a le w))
    = sleeps (Retry.trace (Retry.attempts apiCall cb2 rem a le w')) /\
    calls (Retry.trace (Retry.attempts apiCall cb1 rem a le w))
    = calls (Retry.trace (Retry.attempts apiCall cb2 rem a le w')).
Proof.
  intros Hcall Hcb. induction rem as [|rem IH]; intros a le w w' Hrel.
  - now repeat split.
  - cbn [Retry.attempts].
    destruct (Hcall w w' Hrel) as [Hout Hnext].
    destruct (apiCall w) as [o w1], (apiCall w') as [o' w1'].
    simpl in Hout, Hnext. subst o'.
    destruct o as [v|e]; [now repeat split |].
    pose proof (Hcb a w1 w1' Hnext) as Hrel2.
    pose proof (fun line d tl called =>
                  retry_events_projection cb1 a w1 called line d tl) as Hs1.
    pose proof (fun line d tl called =>
                  retry_events_projection cb2 a w1' called line d tl) as Hs2.
    destruct (Retry.callOnRetry cb1 a w1) as [w2 called].
    destruct (Retry.callOnRetry cb2 a w1') as [w2' called'].
    simpl in Hrel2.
    repeat match goal with
           | |- context [if ?b then _ else _] => destruct b
           end; try (now repeat split).
    cbn [Retry.after Retry.outcome Retry.final Retry.trace].
    destruct (IH (a + 1) (Some e) w2 w2' Hrel2) as [Ho [Hf [Hsl Hca]]].
    destruct (Hs1 (Retry.warnLine a (Retry.backoffDelay a)) (Retry.backoffDelay a)
                  (Retry.trace (Retry.attempts apiCall cb1 rem (a + 1) (Some e) w2))
                  called eq_refl) as [-> ->].
    destruct (Hs2 (Retry.warnLine a (Retry.backoffDelay a)) (Retry.backoffDelay a)
                  (Retry.trace (Retry.attempts apiCall cb2 rem (a + 1) (Some e) w2'))
                  called' eq_refl) as [-> ->].
    repeat split; congruence.
Qed.

(** When each invocation of the thunk appends one [x] to a log of the
    world that the callback leaves alone, the log grows by one [x] per
    invocation. *)
Lemma attempts_log_one_per_call {X : Type} (log : W -> list X) (x : X)
      (apiCall : W -> Outcome T * W) (cb : option (Z -> W -> W)) :
  (forall w, log (snd (apiCall w)) = log w ++ [x]) ->
  (forall k w, log (fst (Retry.callOnRetry cb k w)) = log w) ->
  forall rem a le w,
    (0 < rem)%nat ->
    Retry.MAX_RETRIES < a + Z.of_nat rem ->
    log (Retry.final (Retry.attempts apiCall cb rem a le w))
    = log w ++ repeat x (calls (Retry.trace (Retry.attempts apiCall cb rem a le w))).
Proof.
  intros Hcall Hcb. induction rem as [|rem IH]; intros a le w Hpos Hinv; [lia |].
  cbn [Retry.attempts].
  specialize (Hcall w).
  destruct (apiCall w) as [[v|e] w1]; simpl in Hcall; [exact Hcall |].
  destruct (Retry.isInvalidInputError _); [exact Hcall |].
  destruct ((_ || _) && (a <? Retry.MAX_RETRIES)) eqn:Hretry.
  - apply andb_true_iff in Hretry. destruct Hretry as [_ Hlt].
    apply Z.ltb_lt in Hlt.
    specialize (Hcb a w1).
    pose proof (fun line d tl called =>
                  retry_events_projection cb a w1 called line d tl) as Hs.
    destruct (Retry.callOnRetry cb a w1) as [w2 called]. simpl in Hcb.
    cbn [Retry.after Retry.final Retry.trace].
    destruct (Hs (Retry.warnLine a (Retry.backoffDelay a)) (Retry.backoffDelay a)
                 (Retry.trace (Retry.attempts apiCall cb rem (a + 1) (Some e) w2))
                 called eq_refl) as [_ ->].
    rewrite IH by lia. rewrite Hcb, Hcall, <- app_assoc. reflexivity.
  - destruct (Retry.isRateLimitError _); [exact Hcall |].
    destruct (Retry.isServerError _); exact Hcall.
Qed.

End RunComparison.

Section ServiceInvariants.

Import Gemini SpecMore.

Context {R U : Type}.
Variable runtime : Runtime.
Variable service : Request -> R -> Outcome GenerateContentResponse * R.

Abbreviation World := (Gemini.World R U).

Lemma withUi_sameService (cb1 cb2 : option (Z -> U -> U)) (k : Z) (w w' : World) :
  sameService w w' ->
  sameService (fst (Retry.callOnRetry (option_map withUi cb1) k w))
              (fst (Retry.callOnRetry (option_map withUi cb2) k w')).
Proof. unfold Retry.callOnRetry. destruct cb1, cb2; exact (fun H => H). Qed.

Lemma styledImageCall_sameService modelImage clothingImage (w w' : World) :
  sameService w w' ->
  fst (styledImageCall runtime service modelImage clothingImage w)
  = fst (styledImageCall runtime service modelImage clothingImage w') /\
  sameService (snd (styledImageCall runtime service modelImage clothingImage w))
              (snd (styledImageCall runtime service modelImage clothingImage w')).
Proof.
  intros [Hr [Hq Hl]]. unfold styledImageCall, bind, lift, generateContent.
  destruct (createImagePart runtime modelImage); [| now repeat split].
  destruct (createImagePart runtime clothingImage); [| now repeat split].
  rewrite <- Hr, <- Hq, <- Hl.
  destruct (service _ (remote w)) as [[response|e] r']; [| now repeat split].
  destruct (inlineDataOf (firstPart response)); now repeat split.
Qed.

Lemma trendCall_sameService generatedImage (w w' : World) :
  sameService w w' ->
  fst (trendCall runtime service generatedImage w)
  = fst (trendCall runtime service generatedImage w') /\
  sameService (snd (trendCall runtime service generatedImage w))
              (snd (trendCall runtime service generatedImage w')).
Proof.
  intros [Hr [Hq Hl]].
  unfold trendCall, bind, lift, generateContent, tryCatch, trimmedText,
    parseJson, console_error.
  destruct (createImagePart runtime generatedImage); [| now repeat split].
  rewrite <- Hr, <- Hq.
  destruct (service _ (remote w)) as [[response|e] r']; [| now repeat split].
  destruct (text response) as [t|]; cbn; rewrite <- Hl; [| now repeat split].
  destruct (JSON_parse runtime (JsString.trim t)); now repeat split.
Qed.

Lemma withUi_requests (cb : option (Z -> U -> U)) (k : Z) (w : World) :
  requests (fst (Retry.callOnRetry (option_map withUi cb) k w)) = requests w.
Proof. unfold Retry.callOnRetry. now destruct cb. Qed.

(** X6. With image arguments that parse, each invocation of the thunk
    sends exactly one request, and a retry sends the very same request
    again: the requests sent by [generateStyledImage] in a run are as
    many copies of the one request built from the two images as the
    thunk was invoked, at most three; likewise for [analyzeTrend]. *)
Theorem one_request_per_invocation :
  (forall (modelImage clothingImage : string) (onRetry : option (Z -> U -> U))
          (w0 : World) (p1 p2 : Part),
      createImagePart runtime modelImage = Resolved p1 ->
      createImagePart runtime clothingImage = Resolved p2 ->
      let r := generateStyledImage runtime service modelImage clothingImage onRetry w0 in
      requests (Retry.final r)
      = requests w0 ++ repeat (styledImageRequest p1 p2) (calls (Retry.trace r)) /\
      (1 <= calls (Retry.trace r) <= 3)%nat)
  /\
  (forall (generatedImage : string) (onRetry : option (Z -> U -> U))
          (w0 : World) (p : Part),
      createImagePart runtime generatedImage = Resolved p ->
      let r := analyzeTrend runtime service generatedImage onRetry w0 in
      requests (Retry.final r)
      = requests w0 ++ repeat (trendRequest p) (calls (Retry.trace r)) /\
      (1 <= calls (Retry.trace r) <= 3)%nat).
Proof.
  split.
  - intros modelImage clothingImage onRetry w0 p1 p2 H1 H2 r. split.
    + apply (attempts_log_one_per_call requests (styledImageRequest p1 p2)).
      * intros w. unfold styledImageCall, bind, lift, generateContent.
        rewrite H1, H2.
        destruct (service _ (remote w)) as [[response|e] r']; [| reflexivity].
        now destruct (inlineDataOf (firstPart response)).
      * apply withUi_requests.
      * unfold Retry.MAX_RETRIES; lia.
      * unfold Retry.MAX_RETRIES; lia.
    + subst r. unfold generateStyledImage.
      destruct (run_shape (styledImageCall runtime service modelImage clothingImage)
                          (option_map withUi onRetry) w0) as [n [Hn ->]].
      rewrite calls_segments. unfold calls; simpl. lia.
  - intros generatedImage onRetry w0 p H1 r. split.
    + apply (attempts_log_one_per_call requests (trendRequest p)).
      * intros w.
        unfold trendCall, bind, lift, generateContent, tryCatch, trimmedText,
          parseJson, console_error.
        rewrite H1.
        destruct (service _ (remote w)) as [[response|e] r']; [| reflexivity].
        destruct (text response) as [t|]; [| reflexivity].
        now destruct (JSON_parse runtime (JsString.trim t)).
      * apply withUi_requests.
      * unfold Retry.MAX_RETRIES; lia.
      * unfold Retry.MAX_RETRIES; lia.
    + subst r. unfold analyzeTrend.
      destruct (run_shape (trendCall runtime service generatedImage)
                          (option_map withUi onRetry) w0) as [n [Hn ->]].
      rewrite calls_segments. unfold calls; simpl. lia.
Qed.

End ServiceInvariants.

(** ** The components *)

Section ComponentFacts.

Import Ui SpecMore.

Lemma Lacks_app (c : ascii) (a b : string) :
  Lacks c (a ++ b) <-> Lacks c a /\ Lacks c b.
Proof. induction a as [|x a IH]; simpl; [tauto | rewrite IH; tauto]. Qed.

Lemma split_nonempty (sep : ascii) (s : string) : split sep s <> [].
Proof.
  induction s as [|c s IH]; simpl; [discriminate |].
  destruct (Ascii.eqb c sep); [discriminate |].
  now destruct (split sep s).
Qed.

Lemma split_at_first (sep : ascii) (a b : string) :
  Lacks sep a ->
  split sep (a ++ String sep b) = a :: split sep b.
Proof.
  induction a as [|x a IH]; simpl.
  - intros _. now rewrite Ascii.eqb_refl.
  - intros [Hx Ha]. apply Ascii.eqb_neq in Hx. rewrite Hx, (IH Ha). reflexivity.
Qed.

Lemma split_without (sep : ascii) (a : string) :
  Lacks sep a -> split sep a = [a].
Proof.
  induction a as [|x a IH]; simpl; [reflexivity |].
  intros [Hx Ha]. apply Ascii.eqb_neq in Hx. now rewrite Hx, (IH Ha).
Qed.

Lemma data_url_fields (mime data : string) :
  Lacks ";" mime -> Lacks ":" mime -> Lacks "," mime -> Lacks "," data ->
  mimeTypeOf (dataUrl mime data) = Some mime /\
  dataOf (dataUrl mime data) = Some data /\
  imageDataOf (dataUrl mime data)
  = Json.stringifyObject [("mimeType", Some mime); ("data", Some data)] /\
  (forall m d,
      mimeTypeOf (dataUrl mime data) = Some m ->
      dataOf (dataUrl mime data) = Some d ->
      dataUrl m d = dataUrl mime data).
Proof.
  intros Hsemi Hcolon Hcomma Hdata.
  assert (mimeTypeOf (dataUrl mime data) = Some mime) as Hm.
  { unfold mimeTypeOf, dataUrl.
    change ("data:" ++ mime ++ ";base64," ++ data)%string
      with (("data:" ++ mime) ++ String ";" ("base64," ++ data))%string.
    rewrite split_at_first
      by (apply Lacks_app; split; [simpl; repeat split; discriminate | exact Hsemi]).
    cbn [nth_error].
    change ("data:" ++ mime)%string with ("data" ++ String ":" mime)%string.
    rewrite split_at_first by (simpl; repeat split; discriminate).
    now rewrite split_without. }
  assert (dataOf (dataUrl mime data) = Some data) as Hd.
  { unfold dataOf, dataUrl.
    change ("data:" ++ mime ++ ";base64," ++ data)%string
      with ("data:" ++ mime ++ ";base64" ++ String "," data)%string.
    rewrite <- !append_assoc.
    rewrite split_at_first.
    - now rewrite split_without.
    - rewrite !Lacks_app. repeat split; try exact Hcomma; discriminate. }
  split; [exact Hm |]. split; [exact Hd |]. split.
  - unfold imageDataOf. now rewrite Hm, Hd.
  - intros m d. rewrite Hm, Hd. now intros [= <-] [= <-].
Qed.

(** X7. Round trip of an uploaded image: from the data URL
    [data:<mime>;base64,<data>] that the file encoder returns, when the
    mime type has none of ";", ":" and "," and the data has no ",", the
    upload handlers take out exactly that mime type and that data, so the
    stored image data is the JSON text of the two, and the URL that the
    components build from the two fields is the original one. *)
Theorem data_url_round_trip (mime data : string) :
  Lacks ";" mime -> Lacks ":" mime -> Lacks "," mime -> Lacks "," data ->
  mimeTypeOf (dataUrl mime data) = Some mime /\
  dataOf (dataUrl mime data) = Some data /\
  imageDataOf (dataUrl mime data)
  = Json.stringifyObject [("mimeType", Some mime); ("data", Some data)] /\
  (forall m d,
      mimeTypeOf (dataUrl mime data) = Some m ->
      dataOf (dataUrl mime data) = Some d ->
      dataUrl m d = dataUrl mime data).
Proof. exact (data_url_fields mime data). Qed.

(** X8. The file name of a download always has an extension: it is the
    subtype of the mime type when the mime type is a type, a "/" and a
    non-empty subtype, and "png" when the mime type has no "/" or nothing
    after it. *)
Theorem download_extension :
  (forall mimeType, extension mimeType <> "") /\
  (forall type subtype,
      Lacks "/" type -> Lacks "/" subtype -> subtype <> "" ->
      extension (type ++ String "/" subtype) = subtype /\
      downloadName (type ++ String "/" subtype)
      = ("trendlens-ai-outfit." ++ subtype)%string) /\
  (forall mimeType, Lacks "/" mimeType -> extension mimeType = "png") /\
  (forall type, Lacks "/" type -> extension (type ++ "/") = "png").
Proof.
  repeat split.
  - intros mimeType. unfold extension, JsString.orElse.
    destruct (nth_error _ 1) as [[|c r]|]; discriminate.
  - unfold extension. rewrite split_at_first, split_without by assumption.
    simpl. now destruct subtype.
  - unfold downloadName, extension.
    rewrite split_at_first, split_without by assumption.
    simpl. now destruct subtype.
  - intros mimeType H. unfold extension. now rewrite split_without.
  - intros type H. unfold extension. now rewrite split_at_first.
Qed.

Lemma existsb_eqb_In (x : string) (l : list string) :
  existsb (String.eqb x) l = true <-> In x l.
Proof.
  rewrite existsb_exists. split.
  - intros [y [Hy E]]. apply String.eqb_eq in E. now subst.
  - intros H. exists x. split; [exact H | apply String.eqb_refl].
Qed.

Lemma addAll_In (xs seen : list string) (x : string) :
  In x (addAll seen xs) <-> In x seen \/ In x xs.
Proof.
  revert seen; induction xs as [|y xs IH]; intros seen; simpl; [tauto |].
  destruct (existsb (String.eqb y) seen) eqn:E; rewrite IH.
  - apply existsb_eqb_In in E. split; [tauto |].
    intros [H | [<- | H]]; tauto.
  - rewrite in_app_iff. simpl. tauto.
Qed.

Lemma addAll_NoDup (xs seen : list string) :
  NoDup seen -> NoDup (addAll seen xs).
Proof.
  revert seen; induction xs as [|y xs IH]; intros seen Hs; simpl; [exact Hs |].
  destruct (existsb (String.eqb y) seen) eqn:E; apply IH; [exact Hs |].
  assert (~ In y seen) as Hy
      by (intros H; apply existsb_eqb_In in H; congruence).
  clear E IH. induction seen as [|z seen IHs]; simpl.
  - constructor; [tauto | constructor].
  - inversion Hs; subst. constructor.
    + rewrite in_app_iff. simpl. simpl in Hy. intuition congruence.
    + apply IHs; [assumption | simpl in Hy; tauto].
Qed.

(** X9. The category buttons: "All" comes first; after it every category
    of an item of the library appears, once, and nothing else. *)
Theorem categories_of_the_library (items : list ClothingItem) :
  hd "" (categories items) = "All" /\
  NoDup (tl (categories items)) /\
  (forall c, In c (tl (categories items)) <->
             exists item, In item items /\ category item = c).
Proof.
  unfold categories, setToArray. simpl. repeat split.
  - apply addAll_NoDup. constructor.
  - intros H. apply addAll_In in H. destruct H as [[] | H].
    apply in_map_iff in H. destruct H as [item [E Hi]]. now exists item.
  - intros [item [Hi E]]. apply addAll_In. right.
    apply in_map_iff. now exists item.
Qed.

(** X10. What a category button shows: under "All" the whole library,
    under another category the items of that category, in their order.
    With a non-empty library no listed category is empty; a category that
    is not listed, such as one whose last item has been removed while it
    was selected, shows nothing. *)
Theorem items_shown_for_a_category (items : list ClothingItem) :
  filteredItems "All" items = items /\
  (forall c item,
      In item (filteredItems c items) <->
      In item items /\ (c = "All" \/ category item = c)) /\
  (forall c, items <> [] -> In c (categories items) -> filteredItems c items <> []) /\
  (forall c, ~ In c (categories items) -> filteredItems c items = []).
Proof.
  split; [reflexivity |]. split; [| split].
  - intros c item. unfold filteredItems.
    destruct (String.eqb_spec c "All") as [-> | Hc]; [tauto |].
    rewrite filter_In. split.
    + intros [Hi H]. apply String.eqb_eq in H. tauto.
    + intros [Hi [E | E]]; [contradiction |].
      split; [exact Hi | now apply String.eqb_eq].
  - intros c Hne Hc. unfold filteredItems.
    destruct (String.eqb_spec c "All") as [-> | Hc']; [exact Hne |].
    destruct Hc as [E | Hc]; [congruence |].
    apply addAll_In in Hc. destruct Hc as [[] | Hc].
    apply in_map_iff in Hc. destruct Hc as [item [E Hi]].
    intros Hempty.
    assert (In item (filter (fun item0 => String.eqb (category item0) c) items))
      as Hin by (rewrite filter_In; split; [exact Hi | now apply String.eqb_eq]).
    rewrite Hempty in Hin. exact Hin.
  - intros c Hc. unfold filteredItems.
    destruct (String.eqb_spec c "All") as [-> | Hne].
    + exfalso. apply Hc. now left.
    + destruct (filter _ items) as [|item rest] eqn:E; [reflexivity |].
      exfalso. apply Hc. right. apply addAll_In. right. apply in_map_iff.
      assert (In item (filter (fun item0 => String.eqb (category item0) c) items))
        as Hin by (rewrite E; now left).
      rewrite filter_In in Hin. destruct Hin as [Hi Hcat].
      apply String.eqb_eq in Hcat. now exists item.
Qed.

End ComponentFacts.

Section GaugeFacts.

Import Ui SpecMore.

Lemma Qle_bool_below (x : QArith_base.Q) (low high : Z) :
  QArith_base.Qle_bool (QArith_base.inject_Z low) (QArith_base.inject_Z high) = true ->
  QArith_base.Qle_bool x (QArith_base.inject_Z low) = true ->
  QArith_base.Qle_bool x (QArith_base.inject_Z high) = true.
Proof.
  rewrite !QArith_base.Qle_bool_iff. intros H1 H2.
  exact (QArith_base.Qle_trans _ _ _ H2 H1).
Qed.

Lemma Qle_bool_smaller (a b : QArith_base.Q) (bound : Z) :
  QArith_base.Qle a b ->
  QArith_base.Qle_bool b (QArith_base.inject_Z bound) = true ->
  QArith_base.Qle_bool a (QArith_base.inject_Z bound) = true.
Proof.
  rewrite !QArith_base.Qle_bool_iff. intros H1 H2.
  exact (QArith_base.Qle_trans _ _ _ H1 H2).
Qed.

(** X11. The colour of the gauge never gets worse as the score grows:
    for finite scores [a <= b] the colour of [b] ranks at least as high
    as the colour of [a], in the order red, orange, yellow, green. A
    score that is not a number is shown red. *)
Theorem scoreColor_monotone :
  (forall a b : QArith_base.Q,
      QArith_base.Qle a b ->
      (colourRank (scoreColor (Num a)) <= colourRank (scoreColor (Num b)))%nat)
  /\ scoreColor NaN = "#f87171"
  /\ (forall score, In (scoreColor score) ["#4ade80"; "#facc15"; "#fb923c"; "#f87171"]).
Proof.
  split; [| split].
  - intros a b Hab. unfold scoreColor, gt.
    pose proof (Qle_bool_smaller a b 80 Hab) as H80.
    pose proof (Qle_bool_smaller a b 60 Hab) as H60.
    pose proof (Qle_bool_smaller a b 40 Hab) as H40.
    pose proof (Qle_bool_below a 40 60 eq_refl) as Ha1.
    pose proof (Qle_bool_below a 60 80 eq_refl) as Ha2.
    pose proof (Qle_bool_below b 40 60 eq_refl) as Hb1.
    pose proof (Qle_bool_below b 60 80 eq_refl) as Hb2.
    destruct (QArith_base.Qle_bool a (QArith_base.inject_Z 80)) eqn:Ea80,
             (QArith_base.Qle_bool a (QArith_base.inject_Z 60)) eqn:Ea60,
             (QArith_base.Qle_bool a (QArith_base.inject_Z 40)) eqn:Ea40,
             (QArith_base.Qle_bool b (QArith_base.inject_Z 80)) eqn:Eb80,
             (QArith_base.Qle_bool b (QArith_base.inject_Z 60)) eqn:Eb60,
             (QArith_base.Qle_bool b (QArith_base.inject_Z 40)) eqn:Eb40;
      cbn [negb];
      first [ vm_compute; lia | exfalso; intuition congruence ].
  - reflexivity.
  - intros score. unfold scoreColor.
    destruct (gt score 80), (gt score 60), (gt score 40); simpl; tauto.
Qed.

End GaugeFacts.

(** ** The application *)

Section ResolvedByThunk.

Context {W T : Type}.
Variable apiCall : W -> Outcome T * W.
Variable onRetry : option (Z -> W -> W).

(** A run resolves only with what an invocation of the thunk resolved
    with. *)
Lemma attempts_resolved_by_thunk (rem : nat) :
  forall a le w v,
    Retry.outcome (Retry.attempts apiCall onRetry rem a le w) = Resolved v ->
    exists w', fst (apiCall w') = Resolved v.
Proof.
  induction rem as [|rem IH]; intros a le w v; [discriminate |].
  cbn [Retry.attempts].
  destruct (apiCall w) as [[v1|e] w1] eqn:E.
  - intros [= <-]. exists w. now rewrite E.
  - destruct (Retry.callOnRetry onRetry a w1) as [w2 called].
    repeat match goal with
           | |- context [if ?b then _ else _] => destruct b
           end; try discriminate.
    cbn [Retry.after Retry.outcome]. apply IH.
Qed.

End ResolvedByThunk.

Section HandlerFacts.

Import Gemini App SpecMore.

Context {R : Type}.
Variable runtime : Runtime.
Variable service : Request -> R -> Outcome GenerateContentResponse * R.

Abbreviation World := (Gemini.World R Client).

Lemma styledImageCall_ui modelImage clothingImage (w : World) :
  ui (snd (styledImageCall runtime service modelImage clothingImage w)) = ui w.
Proof.
  unfold styledImageCall, bind, lift, generateContent.
  destruct (createImagePart runtime modelImage); [| reflexivity].
  destruct (createImagePart runtime clothingImage); [| reflexivity].
  destruct (service _ (remote w)) as [[response|e] r']; [| reflexivity].
  now destruct (inlineDataOf (firstPart response)).
Qed.

Lemma trendCall_ui generatedImage (w : World) :
  ui (snd (trendCall runtime service generatedImage w)) = ui w.
Proof.
  unfold trendCall, bind, lift, generateContent, tryCatch, trimmedText,
    parseJson, console_error.
  destruct (createImagePart runtime generatedImage); [| reflexivity].
  destruct (service _ (remote w)) as [[response|e] r']; [| reflexivity].
  destruct (text response) as [t|]; [| reflexivity].
  now destruct (JSON_parse runtime (JsString.trim t)).
Qed.

(** A run whose thunk leaves the client alone and whose callback only
    sets the loading message leaves the client as it was, but for the
    loading message. *)
Lemma run_keeps_client {T : Type} (thunk : World -> Outcome T * World)
      (what : string) (w1 : World) :
  (forall w, ui (snd (thunk w)) = ui w) ->
  forgetMessage
    (ui (Retry.final
           (Retry.callGeminiWithRetry
              thunk
              (option_map withUi
                 (Some (fun attempt =>
                          update (setLoadingMessage (retryingMessage what attempt)))))
              w1)))
  = forgetMessage (ui w1).
Proof.
  intros Hthunk.
  apply (attempts_preserves (fun w : World => forgetMessage (ui w) = forgetMessage (ui w1))).
  - intros w H. now rewrite Hthunk.
  - intros k w H. exact H.
  - reflexivity.
Qed.

Lemma forgetMessage_eq (c c1 : Client) :
  forgetMessage c = forgetMessage c1 ->
  c = mkClient (setLoadingMessage (loadingMessage (app c)) (app c1)) (logged c1).
Proof.
  destruct c as [[m sc si g t l lm e it] lg], c1 as [[m1 sc1 si1 g1 t1 l1 lm1 e1 it1] lg1].
  unfold forgetMessage, setLoadingMessage. cbn. now intros [= -> -> -> -> -> -> -> -> ->].
Qed.

Lemma onClient_sameService (f : Client -> Client) (w : World) :
  sameService (onClient f w) w.
Proof. now repeat split. Qed.

Lemma sameService_sym (w w' : World) : sameService w w' -> sameService w' w.
Proof. unfold sameService. intuition congruence. Qed.

Lemma sameService_trans (w1 w2 w3 : World) :
  sameService w1 w2 -> sameService w2 w3 -> sameService w1 w3.
Proof. unfold sameService. intuition congruence. Qed.

Lemma styledImageCall_resolves_nonempty modelImage clothingImage (w : World) img :
  fst (styledImageCall runtime service modelImage clothingImage w) = Resolved img ->
  shown (Some img) = Some img.
Proof.
  unfold styledImageCall, bind, lift, generateContent.
  destruct (createImagePart runtime modelImage); [| discriminate].
  destruct (createImagePart runtime clothingImage); [| discriminate].
  destruct (service _ (remote w)) as [[response|e] r']; [| discriminate].
  destruct (inlineDataOf (firstPart response)); [| discriminate].
  cbn. now intros [= <-].
Qed.

End HandlerFacts.

Section HandlerProperties.

Import Gemini App SpecMore.

Context {R : Type}.
Variable runtime : Runtime.
Variable service : Request -> R -> Outcome GenerateContentResponse * R.

Abbreviation World := (Gemini.World R Client).

Lemma handleGenerateImage_run (w : World) :
  (missing (modelImage (app (ui w))) = true \/
   missing (selectedClothing (app (ui w))) = true ->
   handleGenerateImage runtime service w
   = onClient (update (setError
                         (Some "Please upload a model image and select a clothing item.")))
              w)
  /\
  (forall m c,
      modelImage (app (ui w)) = Some m ->
      selectedClothing (app (ui w)) = Some c ->
      m <> "" -> c <> "" ->
      let r := generateStyledImage runtime service m c None w in
      let w' := handleGenerateImage runtime service w in
      let s' := app (ui w') in
      sameService w' (Retry.final r) /\
      sameInputs (app (ui w)) s' /\
      isLoading s' = false /\
      trendResult s' = None /\
      match Retry.outcome r with
      | Resolved img =>
          generatedImage s' = Some img /\
          error s' = None /\
          logged (ui w') = logged (ui w) /\
          renderOutputContent s' = Preview img None
      | Rejected e =>
          generatedImage s' = None /\
          error s' = message e /\
          logged (ui w') = logged (ui w) ++ [e] /\
          renderOutputContent s'
          = match shown (message e) with
            | Some shownText => ErrorPanel shownText
            | None => Placeholder
            end
      end).
Proof.
  split.
  - intros H. unfold handleGenerateImage.
    destruct H as [H | H]; rewrite H; [reflexivity | now rewrite orb_true_r].
  - intros m c Hm Hc Hmne Hcne r w' s'.
    subst s' w'. unfold handleGenerateImage. rewrite Hm, Hc.
    destruct m as [|a m]; [contradiction |]. destruct c as [|b c]; [contradiction |].
    cbn [missing orb].
    set (cb := Some (fun attempt : Z =>
                       update (setLoadingMessage
                                 (retryingMessage "image generation" attempt)))).
    set (w1 := onClient _ w).
    set (r' := generateStyledImage runtime service (String a m) (String b c) cb w1).
    destruct (attempts_simulation
                sameService
                (styledImageCall runtime service (String a m) (String b c))
                (option_map withUi cb) (option_map withUi None)
                (styledImageCall_sameService runtime service _ _)
                (withUi_sameService cb None)
                (Z.to_nat Retry.MAX_RETRIES) 1 None w1 w
                (onClient_sameService _ w))
      as [Hout0 [Hsame0 _]].
    assert (Retry.outcome r' = Retry.outcome r) as Hout by exact Hout0.
    assert (sameService (Retry.final r') (Retry.final r)) as Hsame by exact Hsame0.
    clear Hout0 Hsame0.
    pose proof (forgetMessage_eq _ _
                  (run_keeps_client (styledImageCall runtime service (String a m) (String b c))
                                    "image generation" w1
                                    (styledImageCall_ui runtime service _ _)))
      as Hui0.
    assert (ui (Retry.final r')
            = mkClient (setLoadingMessage (loadingMessage (app (ui (Retry.final r'))))
                                          (app (ui w1)))
                       (logged (ui w1))) as Hui by exact Hui0.
    clear Hui0.
    rewrite <- Hout.
    destruct (Retry.outcome r') as [img|e] eqn:Ho.
    + assert (shown (Some img) = Some img) as Himg.
      { destruct (attempts_resolved_by_thunk _ _ _ _ _ _ _ Ho) as [wx Hx].
        exact (styledImageCall_resolves_nonempty runtime service _ _ _ _ Hx). }
      unfold onClient, update. cbn [ui app logged remote requests errorLog].
      rewrite Hui. subst w1. unfold onClient, update.
      destruct w as [rm rq el [s lg]]. destruct s.
      cbn in *. unfold renderOutputContent. cbn. rewrite Himg.
      repeat split; apply Hsame.
    + assert (instanceofApiError e = true) as Hi.
      { apply (attempts_reject_with_ApiError
                 (styledImageCall runtime service (String a m) (String b c))
                 (option_map withUi cb) 3 1 None w1);
          [lia | unfold Retry.MAX_RETRIES; lia | exact Ho]. }
      unfold onClient, report, update. rewrite Hi.
      cbn [ui app logged remote requests errorLog].
      rewrite Hui. subst w1. unfold onClient, update.
      destruct w as [rm rq el [s lg]]. destruct s.
      cbn in *. unfold renderOutputContent. cbn.
      destruct (message e) as [[|x t]|]; cbn; repeat split; apply Hsame.
Qed.

(** X12. [handleGenerateImage], run to its end. With the model image or
    the clothing missing it only sets the error that asks for them, and
    sends nothing. Otherwise it settles as [generateStyledImage] does on
    the two inputs, with the same requests sent, and leaves the inputs
    and the library as they were, with [isLoading] off and no trend
    result. On success the image is stored, no error is set and the
    preview is shown. On failure the error is logged and its own message
    is what is set as the error: the rejection is always an [ApiError],
    so the text for unexpected errors is never used; the error panel
    shows that message, unless the message is empty, in which case the
    placeholder is shown. *)
Theorem handleGenerateImage_settles (w : World) :
  (missing (modelImage (app (ui w))) = true \/
   missing (selectedClothing (app (ui w))) = true ->
   handleGenerateImage runtime service w
   = onClient (update (setError
                         (Some "Please upload a model image and select a clothing item.")))
              w)
  /\
  (forall m c,
      modelImage (app (ui w)) = Some m ->
      selectedClothing (app (ui w)) = Some c ->
      m <> "" -> c <> "" ->
      let r := generateStyledImage runtime service m c None w in
      let w' := handleGenerateImage runtime service w in
      let s' := app (ui w') in
      sameService w' (Retry.final r) /\
      sameInputs (app (ui w)) s' /\
      isLoading s' = false /\
      trendResult s' = None /\
      match Retry.outcome r with
      | Resolved img =>
          generatedImage s' = Some img /\
          error s' = None /\
          logged (ui w') = logged (ui w) /\
          renderOutputContent s' = Preview img None
      | Rejected e =>
          generatedImage s' = None /\
          error s' = message e /\
          logged (ui w') = logged (ui w) ++ [e] /\
          renderOutputContent s'
          = match shown (message e) with
            | Some shownText => ErrorPanel shownText
            | None => Placeholder
            end
      end).
Proof. exact (handleGenerateImage_run w). Qed.


Lemma handleAnalyzeTrend_run (w : World) :
  (missing (generatedImage (app (ui w))) = true ->
   handleAnalyzeTrend runtime service w = w)
  /\
  (forall g,
      generatedImage (app (ui w)) = Some g ->
      g <> "" ->
      let r := analyzeTrend runtime service g None w in
      let w' := handleAnalyzeTrend runtime service w in
      let s' := app (ui w') in
      sameService w' (Retry.final r) /\
      sameInputs (app (ui w)) s' /\
      isLoading s' = false /\
      generatedImage s' = Some g /\
      match Retry.outcome r with
      | Resolved result =>
          trendResult s' = Some result /\
          error s' = None /\
          logged (ui w') = logged (ui w) /\
          renderOutputContent s'
          = if truthy result then Result g result else Preview g None
      | Rejected e =>
          trendResult s' = trendResult (app (ui w)) /\
          error s' = message e /\
          logged (ui w') = logged (ui w) ++ [e] /\
          (shownResult (trendResult (app (ui w))) = None ->
           renderOutputContent s' = Preview g (shown (message e)))
      end).
Proof.
  split.
  - intros H. unfold handleAnalyzeTrend. now rewrite H.
  - intros g Hg Hgne r w' s'.
    subst s' w'. unfold handleAnalyzeTrend. rewrite Hg.
    destruct g as [|a g]; [contradiction |].
    cbn [missing].
    set (cb := Some (fun attempt : Z =>
                       update (setLoadingMessage
                                 (retryingMessage "trend analysis" attempt)))).
    set (w1 := onClient _ w).
    set (r' := analyzeTrend runtime service (String a g) cb w1).
    destruct (attempts_simulation
                sameService
                (trendCall runtime service (String a g))
                (option_map withUi cb) (option_map withUi None)
                (trendCall_sameService runtime service _)
                (withUi_sameService cb None)
                (Z.to_nat Retry.MAX_RETRIES) 1 None w1 w
                (onClient_sameService _ w))
      as [Hout0 [Hsame0 _]].
    assert (Retry.outcome r' = Retry.outcome r) as Hout by exact Hout0.
    assert (sameService (Retry.final r') (Retry.final r)) as Hsame by exact Hsame0.
    clear Hout0 Hsame0.
    pose proof (forgetMessage_eq _ _
                  (run_keeps_client (trendCall runtime service (String a g))
                                    "trend analysis" w1
                                    (trendCall_ui runtime service _)))
      as Hui0.
    assert (ui (Retry.final r')
            = mkClient (setLoadingMessage (loadingMessage (app (ui (Retry.final r'))))
                                          (app (ui w1)))
                       (logged (ui w1))) as Hui by exact Hui0.
    clear Hui0.
    rewrite <- Hout.
    destruct (Retry.outcome r') as [result|e] eqn:Ho.
    + unfold onClient, update. cbn [ui app logged remote requests errorLog].
      rewrite Hui. subst w1. unfold onClient, update.
      destruct w as [rm rq el [s lg]]. destruct s.
      cbn in *. subst. unfold renderOutputContent. cbn.
      destruct (truthy result); repeat split; apply Hsame.
    + assert (instanceofApiError e = true) as Hi.
      { apply (attempts_reject_with_ApiError
                 (trendCall runtime service (String a g))
                 (option_map withUi cb) 3 1 None w1);
          [lia | unfold Retry.MAX_RETRIES; lia | exact Ho]. }
      unfold onClient, report, update. rewrite Hi.
      cbn [ui app logged remote requests errorLog].
      rewrite Hui. subst w1. unfold onClient, update.
      destruct w as [rm rq el [s lg]]. destruct s.
      cbn in *. subst. unfold renderOutputContent. cbn.
      repeat split; try apply Hsame.
      intros Hnone. rewrite Hnone.
      now destruct (message e) as [[|x t]|].
Qed.

(** X13. [handleAnalyzeTrend], run to its end. Without a generated image
    it does nothing at all. With one it settles as [analyzeTrend] does on
    that image, with the same requests sent, and leaves the inputs, the
    library and the generated image as they were, with [isLoading] off.
    On success the parsed value is stored as the trend result, and the
    result view is shown only if that value counts as true: a result such
    as [0], [null] or the empty string leaves the preview in place. On
    failure the trend result is kept, the error is logged and its own
    message is set as the error, shown under the preview. *)
Theorem handleAnalyzeTrend_settles (w : World) :
  (missing (generatedImage (app (ui w))) = true ->
   handleAnalyzeTrend runtime service w = w)
  /\
  (forall g,
      generatedImage (app (ui w)) = Some g ->
      g <> "" ->
      let r := analyzeTrend runtime service g None w in
      let w' := handleAnalyzeTrend runtime service w in
      let s' := app (ui w') in
      sameService w' (Retry.final r) /\
      sameInputs (app (ui w)) s' /\
      isLoading s' = false /\
      generatedImage s' = Some g /\
      match Retry.outcome r with
      | Resolved result =>
          trendResult s' = Some result /\
          error s' = None /\
          logged (ui w') = logged (ui w) /\
          renderOutputContent s'
          = if truthy result then Result g result else Preview g None
      | Rejected e =>
          trendResult s' = trendResult (app (ui w)) /\
          error s' = message e /\
          logged (ui w') = logged (ui w) ++ [e] /\
          (shownResult (trendResult (app (ui w))) = None ->
           renderOutputContent s' = Preview g (shown (message e)))
      end).
Proof. exact (handleAnalyzeTrend_run w). Qed.

Lemma sameInputs_SelectionValid (s s' : State) :
  sameInputs s s' -> SelectionValid s -> SelectionValid s'.
Proof.
  intros [_ [Hc [Hi Hit]]]. unfold SelectionValid. now rewrite Hc, Hi, Hit.
Qed.

Lemma perform_SelectionValid (a : Action) (s : State) :
  offered s a -> SelectionValid s -> SelectionValid (perform a s).
Proof.
  destruct s as [m sc si g t l lm e its].
  destruct a as [now item | i | item | image | | x | x | x | x | x];
    unfold SelectionValid; cbn; try (intros _ H; exact H).
  - (* AddItem *)
    intros _ H. destruct si as [j|], sc as [d|]; try exact H.
    destruct H as [it [Hin [Hid Hd]]]. exists it. split; [now right | now split].
  - (* RemoveItem *)
    intros _ H. unfold handleRemoveItem, isSelected. cbn.
    destruct si as [j|]; [| destruct sc; exact H].
    destruct (Z.eqb_spec j i) as [-> | Hne]; cbn; [exact I |].
    destruct sc as [d|]; [| exact H].
    destruct H as [it [Hin [Hid Hd]]]. exists it. split; [| now split].
    apply filter_In. split; [exact Hin |].
    apply negb_true_iff. apply Z.eqb_neq. congruence.
  - (* SelectItem *)
    intros Hin _. now exists item.
Qed.

(** X14. Whatever the user does, and whenever the asynchronous handlers
    and their callbacks set the state in between, the selection stays
    within the library: starting from a state where it is so, the
    selected id and the selected image data are always either both empty
    or the id and the image data of one item of the library, as long as
    items are selected from the ones the gallery shows. Removing the
    selected item clears the selection. The two asynchronous handlers, run
    to their end, keep it so as well. *)
Theorem selection_stays_in_the_library :
  (forall init s,
      SelectionValid init -> Reachable init s -> SelectionValid s)
  /\
  (forall w : World,
      SelectionValid (app (ui w)) ->
      SelectionValid (app (ui (handleGenerateImage runtime service w))) /\
      SelectionValid (app (ui (handleAnalyzeTrend runtime service w)))).
Proof.
  split.
  - intros init s Hinit Hreach. induction Hreach as [|s a Hreach IH Hoff].
    + exact Hinit.
    + now apply perform_SelectionValid.
  - intros w Hvalid. split.
    + destruct (handleGenerateImage_run w) as [Hguard Hrun].
      destruct (modelImage (app (ui w))) as [[|a m]|] eqn:Hm;
        try (rewrite Hguard by (left; reflexivity);
             destruct w as [rm rq el [s lg]]; now destruct s).
      destruct (selectedClothing (app (ui w))) as [[|b c]|] eqn:Hc;
        try (rewrite Hguard by (right; reflexivity);
             destruct w as [rm rq el [s lg]]; now destruct s).
      apply (sameInputs_SelectionValid (app (ui w))); [| exact Hvalid].
      apply (Hrun (String a m) (String b c) eq_refl eq_refl); discriminate.
    + destruct (handleAnalyzeTrend_run w) as [Hidle Hrun].
      destruct (generatedImage (app (ui w))) as [[|a g]|] eqn:Hg;
        try (rewrite Hidle by reflexivity; exact Hvalid).
      apply (sameInputs_SelectionValid (app (ui w))); [| exact Hvalid].
      apply (Hrun (String a g) eq_refl). discriminate.
Qed.

End HandlerProperties.

Section LibraryFacts.

Import Ui App SpecMore.

Lemma state_ext (s s' : State) :
  modelImage s = modelImage s' ->
  selectedClothing s = selectedClothing s' ->
  selectedClothingId s = selectedClothingId s' ->
  generatedImage s = generatedImage s' ->
  trendResult s = trendResult s' ->
  isLoading s = isLoading s' ->
  loadingMessage s = loadingMessage s' ->
  error s = error s' ->
  items s = items s' ->
  s = s'.
Proof. destruct s, s'. cbn. intros. now subst. Qed.

(** X15. Adding an item and removing it again: when no item of the
    library has the id that [Date.now()] gave the new item, and the
    selection is within the library, removing that id after the addition
    gives back the library and the selection as they were (the outputs
    being reset, as by every removal). And a removal takes away every
    item that has the id, keeping the others in their order. *)
Theorem add_then_remove_restores (now : Z) (item : NewItem) (s : State) :
  ((forall it, In it (items s) -> id it <> now) ->
   SelectionValid s ->
   handleRemoveItem now (handleAddItem now item s) = handleStartOver s)
  /\
  (forall i it,
      In it (items (handleRemoveItem i s)) <-> In it (items s) /\ id it <> i).
Proof.
  split.
  - intros Hfresh Hvalid.
    assert (isSelected (handleAddItem now item s) now = false) as Hsel.
    { unfold isSelected, SelectionValid in *.
      destruct s as [m sc si g t l lm e its]. cbn -[Z.eqb] in *.
      destruct si as [j|]; [| reflexivity].
      destruct (Z.eqb_spec j now) as [-> | Hne]; [| reflexivity].
      exfalso. destruct sc as [d|]; [| exact Hvalid].
      destruct Hvalid as [it [Hin [Hid _]]]. exact (Hfresh it Hin Hid). }
    assert (filter (fun it => negb (id it =? now)) (items s) = items s) as Hfilter.
    { induction (items s) as [|x its IH]; [reflexivity |].
      simpl. destruct (Z.eqb_spec (id x) now) as [E | _].
      - exfalso. apply (Hfresh x); [now left | exact E].
      - simpl. f_equal. apply IH. intros it Hin. apply Hfresh. now right. }
    unfold handleRemoveItem. cbv zeta. rewrite Hsel.
    apply state_ext; cbn -[Z.eqb]; try reflexivity.
    rewrite Z.eqb_refl. cbn -[Z.eqb]. exact Hfilter.
  - intros i it.
    assert (In it (filter (fun x => negb (id x =? i)) (items s))
            <-> In it (items s) /\ id it <> i) as H.
    { rewrite filter_In, negb_true_iff, Z.eqb_neq. tauto. }
    unfold handleRemoveItem. cbv zeta.
    destruct (isSelected s i); cbn -[Z.eqb]; exact H.
Qed.

End LibraryFacts.

(** ** JSON texts written and read back *)

Section JsonRoundTrip.

Import Json SpecMore.

Lemma parseChars_quoteChar (c : ascii) (tail : string) :
  parseChars None (quoteChar c ++ tail)
  = prepend (String c "") (parseChars None tail).
Proof.
  destruct c as [b0 b1 b2 b3 b4 b5 b6 b7].
  destruct b0, b1, b2, b3, b4, b5, b6, b7; reflexivity.
Qed.

(** A string literal as [JSON.stringify] writes it is read back as the
    string it was written from. *)
Lemma parseChars_quoteChars (s rest : string) :
  parseChars None (quoteChars s ++ String dquote rest) = Some (s, rest).
Proof.
  induction s as [|c s IH].
  - reflexivity.
  - cbn [quoteChars]. rewrite append_assoc, parseChars_quoteChar, IH. reflexivity.
Qed.

Lemma parseValue_string (fuel : nat) (v rest : string) :
  parseValue (S fuel) (String dquote (quoteChars v ++ String dquote rest))
  = Some (JString v, rest).
Proof.
  cbn [parseValue skipWs]. change (isWs dquote) with false. cbv iota.
  change (Ascii.eqb dquote "{") with false.
  change (Ascii.eqb dquote "[") with false.
  change (Ascii.eqb dquote dquote) with true. cbv iota.
  now rewrite parseChars_quoteChars.
Qed.

Lemma parseMembers_string_comma (fuel : nat) (acc : list (string * value))
      (key v rest : string) :
  parseMembers (S (S fuel)) acc (memberText key v (String "," rest))
  = parseMembers (S fuel) (setMember key (JString v) acc) rest.
Proof.
  unfold memberText.
  cbn [parseMembers skipWs]. change (isWs dquote) with false. cbv iota.
  change (Ascii.eqb dquote dquote) with true. cbv iota.
  rewrite parseChars_quoteChars.
  change (skipWs (String ":" ?x)) with (String ":" x). cbv iota beta.
  rewrite parseValue_string. reflexivity.
Qed.

Lemma parseMembers_string_end (fuel : nat) (acc : list (string * value))
      (key v rest : string) :
  parseMembers (S (S fuel)) acc (memberText key v (String "}" rest))
  = Some (JObject (setMember key (JString v) acc), rest).
Proof.
  unfold memberText.
  cbn [parseMembers skipWs]. change (isWs dquote) with false. cbv iota.
  change (Ascii.eqb dquote dquote) with true. cbv iota.
  rewrite parseChars_quoteChars.
  change (skipWs (String ":" ?x)) with (String ":" x). cbv iota beta.
  rewrite parseValue_string. reflexivity.
Qed.

Lemma parseValue_object (fuel : nat) (key v tail : string) :
  parseValue (S fuel) (String "{" (memberText key v tail))
  = parseMembers fuel [] (memberText key v tail).
Proof.
  unfold memberText.
  cbn [parseValue skipWs]. change (isWs "{") with false. cbv iota.
  change (Ascii.eqb "{" "{") with true. cbv iota.
  change (isWs dquote) with false. cbv iota. reflexivity.
Qed.

Lemma memberText_quote (key v tail : string) :
  (quote key ++ ":" ++ quote v ++ tail)%string = memberText key v tail.
Proof.
  unfold quote, memberText. cbn -[quoteChars].
  now rewrite !append_assoc.
Qed.

Lemma enough_fuel (c : ascii) (x : string) :
  (2 * String.length (String c x) + 2
   = S (S (S (S (2 * String.length x)))))%nat.
Proof. cbn [String.length]. lia. Qed.

Lemma parse_stringifyObject (mime data : option string) :
  parse (stringifyObject [("mimeType", mime); ("data", data)])
  = Some (JObject (present "mimeType" mime ++ present "data" data)).
Proof.
  destruct mime as [m|], data as [d|]; [| | | reflexivity].
  - assert (stringifyObject [("mimeType", Some m); ("data", Some d)]
            = String "{" (memberText "mimeType" m
                            (String "," (memberText "data" d (String "}" "")))))
      as ->.
    { rewrite <- !memberText_quote.
      unfold stringifyObject, stringifyMembers, String.concat.
      cbn [append]. now rewrite !append_assoc. }
    unfold parse. rewrite enough_fuel.
    rewrite parseValue_object, parseMembers_string_comma, parseMembers_string_end.
    reflexivity.
  - assert (stringifyObject [("mimeType", Some m); ("data", None)]
            = String "{" (memberText "mimeType" m (String "}" "")))
      as ->.
    { rewrite <- !memberText_quote.
      unfold stringifyObject, stringifyMembers, String.concat.
      cbn [append]. now rewrite !append_assoc. }
    unfold parse. rewrite enough_fuel.
    rewrite parseValue_object, parseMembers_string_end. reflexivity.
  - assert (stringifyObject [("mimeType", None); ("data", Some d)]
            = String "{" (memberText "data" d (String "}" "")))
      as ->.
    { rewrite <- !memberText_quote.
      unfold stringifyObject, stringifyMembers, String.concat.
      cbn [append]. now rewrite !append_assoc. }
    unfold parse. rewrite enough_fuel.
    rewrite parseValue_object, parseMembers_string_end. reflexivity.
Qed.

(** X16. What is written is read back. With the reference JSON
    implementation as the runtime, [createImagePart] turns the string
    that [generateStyledImage] returns for an inline image, and that the
    upload handlers store, back into an image part with the same mime type
    and data, whatever characters the two contain; a field that was
    undefined stays undefined. So an uploaded data URL of the form
    [data:<mime>;base64,<data>] reaches the request as that mime type and
    that data. *)
Theorem stored_image_is_read_back :
  (forall mime data : option string,
      Gemini.createImagePart
        Stub.runtime (stringifyObject [("mimeType", mime); ("data", data)])
      = Resolved (Gemini.InlineData (option_map JString mime)
                                    (option_map JString data)))
  /\
  (forall mime data : string,
      Lacks ";" mime -> Lacks ":" mime -> Lacks "," mime -> Lacks "," data ->
      Gemini.createImagePart Stub.runtime (Ui.imageDataOf (Ui.dataUrl mime data))
      = Resolved (Gemini.InlineData (Some (JString mime)) (Some (JString data)))).
Proof.
  assert (forall mime data : option string,
             Gemini.createImagePart
               Stub.runtime (stringifyObject [("mimeType", mime); ("data", data)])
             = Resolved (Gemini.InlineData (option_map JString mime)
                                           (option_map JString data))) as H.
  { intros mime data.
    unfold Gemini.createImagePart, Gemini.parseJson, Stub.runtime.
    cbn [JSON_parse]. rewrite parse_stringifyObject.
    destruct mime, data; reflexivity. }
  split; [exact H |].
  intros mime data H1 H2 H3 H4.
  destruct (data_url_fields mime data H1 H2 H3 H4) as [_ [_ [-> _]]].
  exact (H (Some mime) (Some data)).
Qed.

End JsonRoundTrip.

(** ** Concrete runs for the further properties *)

Lemma unclassified_failure_is_wrapped_witness :
  let thunk :=
    Stub.scripted (T := string)
                  [Stub.fails "503 Service Unavailable"; Stub.fails "socket hang up"]
                  (Stub.fails "not reached") in
  let r := Retry.callGeminiWithRetry thunk None 0%nat in
  Retry.outcome r = Rejected (mkError ApiError (Some "socket hang up")) /\
  calls (Retry.trace r) = 2%nat.
Proof.
  intros thunk r.
  destruct (unclassified_failure_is_wrapped
              thunk None 0%nat 2 1%nat (new_Error "socket hang up") 2%nat)
    as [Ho [_ [_ Hc]]].
  - next_attempt 1 0%nat (new_Error "503 Service Unavailable") 1%nat.
    apply starts_first.
  - reflexivity.
  - flag_fails isRateLimitError_iff.
  - flag_fails isServerError_iff.
  - flag_fails isInvalidInputError_iff.
  - split; [exact Ho | exact Hc].
Defined.

Lemma last_attempt_decides_the_kind_witness :
  let thunk :=
    Stub.scripted (T := string)
                  [Stub.fails "Quota exceeded"; Stub.fails "429 Too Many Requests";
                   Stub.fails "500 Internal Server Error"]
                  (Stub.fails "not reached") in
  let r := Retry.callGeminiWithRetry thunk None 0%nat in
  Retry.outcome r = Rejected (new_ServerError None) /\
  calls (Retry.trace r) = 3%nat /\
  sleeps (Retry.trace r) = [1000; 2000].
Proof.
  intros thunk r.
  apply (last_attempt_decides_the_kind
           thunk None 0%nat 2%nat (new_Error "500 Internal Server Error") 3%nat).
  - next_attempt 2 1%nat (new_Error "429 Too Many Requests") 2%nat.
    next_attempt 1 0%nat (new_Error "Quota exceeded") 1%nat.
    apply starts_first.
  - reflexivity.
  - flag_holds isServerError_iff.
  - flag_fails isRateLimitError_iff.
  - flag_fails isInvalidInputError_iff.
Defined.

(** A thunk that throws [null] at its second invocation; a thunk that
    throws an object without a message. *)
Lemma rejection_is_ApiError_or_raw_witness :
  (let thunk :=
     StubAny.scriptedAny (T := string)
                         [StubAny.failsWith "503 Service Unavailable";
                          Thrown.Throw Thrown.Nullish]
                         (Thrown.Normal "not reached") in
   let r := RetryAny.callGeminiWithRetry StubAny.typeErrorText thunk None 0%nat in
   RetryAny.outcome r
   = Thrown.Throw
       (Thrown.Object TypeError
          (Thrown.Str "Cannot read properties of null (reading 'message')")) /\
   calls (RetryAny.trace r) = 2%nat /\
   Thrown.instanceofApiError
     (Thrown.Object TypeError
        (Thrown.Str "Cannot read properties of null (reading 'message')")) = false)
  /\
  (let thunk :=
     StubAny.scriptedAny (T := string)
                         [Thrown.Throw (Thrown.Object (Foreign "ClientError")
                                                      Thrown.Undefined)]
                         (Thrown.Normal "not reached") in
   let r := RetryAny.callGeminiWithRetry StubAny.typeErrorText thunk None 0%nat in
   RetryAny.outcome r
   = Thrown.Throw (Thrown.Object ApiError (Thrown.Str "")) /\
   Thrown.instanceofApiError (Thrown.Object ApiError (Thrown.Str "")) = true).
Proof.
  split; intros thunk r.
  - destruct (rejection_is_ApiError_or_raw StubAny.typeErrorText thunk None 0%nat)
      as [_ [_ [Hraw _]]].
    destruct (Hraw 2 1%nat Thrown.Nullish 2%nat) as [Hrun [Hcalls [_ Hinst]]].
    + apply (SpecMore.starts_any_next thunk None 0%nat 1 0%nat
                             (Thrown.ofError (new_Error "503 Service Unavailable"))
                             "503 Service Unavailable" 1%nat 1%nat).
      * apply SpecMore.starts_any_first.
      * reflexivity.
      * constructor.
      * apply (Retriable_flags (new_Error "503 Service Unavailable")). reflexivity.
      * reflexivity.
      * reflexivity.
    + reflexivity.
    + constructor.
    + fold r in Hrun, Hcalls. rewrite Hrun in *.
      split; [reflexivity |]. split; [exact Hcalls | exact Hinst].
  - destruct (rejection_is_ApiError_or_raw StubAny.typeErrorText thunk None 0%nat)
      as [_ [Hreadable _]].
    assert (RetryAny.outcome r
            = Thrown.Throw (Thrown.Object ApiError (Thrown.Str ""))) as E
        by reflexivity.
    split; [exact E |].
    apply Hreadable; [| | exact E].
    + intros k wk u w1 _ H.
      destruct wk as [|[|n]]; simpl in H; try discriminate H.
      injection H as <- <-. exists "". constructor.
    + intros f k wk e w1 H. discriminate H.
Defined.

(** The first invocation fails with a 503, and the callback throws. *)
Lemma onRetry_that_throws_ends_the_run_witness :
  let thunk :=
    StubAny.scriptedAny (T := string)
                        [StubAny.failsWith "503 Service Unavailable"]
                        (Thrown.Normal "image") in
  (let r := RetryAny.callGeminiWithRetry StubAny.typeErrorText thunk
                                         (Some StubAny.failingCallback) 0%nat in
   r = RetryAny.mkRun
         (Thrown.Throw
            (Thrown.Object Error (Thrown.Str "Cannot update an unmounted component")))
         1%nat [EvCall; EvOnRetry 1])
  /\
  (let r := RetryAny.callGeminiWithRetry StubAny.typeErrorText thunk None 0%nat in
   exists rest,
     RetryAny.trace r
     = [EvCall;
        EvWarn "Retriable error detected. Retrying in 1s... (Attempt 1/2)";
        EvSleep 1000; EvCall] ++ rest).
Proof.
  intros thunk.
  assert (Retriable "503 Service Unavailable") as Hretr
      by (apply (Retriable_flags (new_Error "503 Service Unavailable")); reflexivity).
  split; intros r.
  - destruct (onRetry_that_throws_ends_the_run
                StubAny.typeErrorText thunk (Some StubAny.failingCallback)
                0%nat 1 0%nat
                (Thrown.ofError (new_Error "503 Service Unavailable"))
                "503 Service Unavailable" 1%nat)
      as [Hthrows _].
    + apply SpecMore.starts_any_first.
    + reflexivity.
    + constructor.
    + exact Hretr.
    + reflexivity.
    + destruct (Hthrows StubAny.failingCallback
                        (Thrown.ofError
                           (new_Error "Cannot update an unmounted component"))
                        1%nat eq_refl eq_refl) as [Hrun _].
      exact Hrun.
  - destruct (onRetry_that_throws_ends_the_run
                StubAny.typeErrorText thunk None
                0%nat 1 0%nat
                (Thrown.ofError (new_Error "503 Service Unavailable"))
                "503 Service Unavailable" 1%nat)
      as [_ Hreturns].
    + apply SpecMore.starts_any_first.
    + reflexivity.
    + constructor.
    + exact Hretr.
    + reflexivity.
    + destruct (Hreturns 1%nat eq_refl) as [_ [rest Hrest]].
      exists rest. exact Hrest.
Defined.

Lemma one_request_per_invocation_witness :
  let service :=
    Stub.answering [Stub.fails "503 Service Unavailable"]
                   (Resolved Stub.imageResponse) in
  let r := Gemini.generateStyledImage Stub.runtime service Stub.pngImage
                                      Stub.pngImage None Stub.fresh in
  Gemini.requests (Retry.final r)
  = Gemini.requests Stub.fresh
      ++ repeat (Gemini.styledImageRequest Stub.pngPart Stub.pngPart)
                (calls (Retry.trace r)) /\
  (1 <= calls (Retry.trace r) <= 3)%nat.
Proof.
  intros service r.
  apply (proj1 (one_request_per_invocation Stub.runtime service));
    vm_compute; reflexivity.
Defined.

Lemma data_url_round_trip_witness :
  Ui.mimeTypeOf (Ui.dataUrl "image/png" "abc123") = Some "image/png" /\
  Ui.dataOf (Ui.dataUrl "image/png" "abc123") = Some "abc123" /\
  Ui.imageDataOf (Ui.dataUrl "image/png" "abc123")
  = Json.stringifyObject [("mimeType", Some "image/png"); ("data", Some "abc123")] /\
  (forall m d,
      Ui.mimeTypeOf (Ui.dataUrl "image/png" "abc123") = Some m ->
      Ui.dataOf (Ui.dataUrl "image/png" "abc123") = Some d ->
      Ui.dataUrl m d = Ui.dataUrl "image/png" "abc123").
Proof.
  assert (SpecMore.Lacks ";" "image/png") as H1 by (simpl; repeat split; discriminate).
  assert (SpecMore.Lacks ":" "image/png") as H2 by (simpl; repeat split; discriminate).
  assert (SpecMore.Lacks "," "image/png") as H3 by (simpl; repeat split; discriminate).
  assert (SpecMore.Lacks "," "abc123") as H4 by (simpl; repeat split; discriminate).
  exact (data_url_round_trip "image/png" "abc123" H1 H2 H3 H4).
Defined.

Lemma download_extension_witness :
  Ui.extension "image/svg+xml" = "svg+xml" /\
  Ui.downloadName "image/svg+xml" = "trendlens-ai-outfit.svg+xml" /\
  Ui.extension "image" = "png".
Proof.
  destruct download_extension as [_ [Hsub [Hnone _]]].
  assert (SpecMore.Lacks "/" "image") as Ht by (simpl; repeat split; discriminate).
  assert (SpecMore.Lacks "/" "svg+xml") as Hs by (simpl; repeat split; discriminate).
  assert ("svg+xml" <> "") as Hne by discriminate.
  destruct (Hsub "image" "svg+xml" Ht Hs Hne) as [He Hn].
  split; [exact He |]. split; [exact Hn |].
  exact (Hnone "image" Ht).
Defined.

Lemma categories_of_the_library_witness :
  In "Dresses" (tl (Ui.categories [StubMore.jacket; StubMore.dress; StubMore.coat])).
Proof.
  apply (proj2 (proj2 (categories_of_the_library
                         [StubMore.jacket; StubMore.dress; StubMore.coat]))).
  exists StubMore.dress. split; [right; now left | reflexivity].
Defined.

Lemma items_shown_for_a_category_witness :
  Ui.filteredItems "Outerwear" [StubMore.jacket; StubMore.dress; StubMore.coat] <> [] /\
  Ui.filteredItems "Tops" [StubMore.jacket; StubMore.dress; StubMore.coat] = [].
Proof.
  destruct (items_shown_for_a_category
              [StubMore.jacket; StubMore.dress; StubMore.coat])
    as [_ [_ [Hlisted Hstale]]].
  split.
  - apply Hlisted; [discriminate |]. right. now left.
  - apply Hstale. vm_compute. intuition discriminate.
Defined.

Lemma scoreColor_monotone_witness :
  (SpecMore.colourRank (Ui.scoreColor (Ui.Num (QArith_base.Qmake 161 2)))
   <= SpecMore.colourRank (Ui.scoreColor (Ui.Num (QArith_base.Qmake 81 1))))%nat.
Proof.
  apply (proj1 scoreColor_monotone).
  unfold QArith_base.Qle. simpl. lia.
Defined.

Lemma handleGenerateImage_settles_witness :
  let service :=
    Stub.answering [Stub.fails "503 Service Unavailable"]
                   (Resolved Stub.imageResponse) in
  let w' := App.handleGenerateImage Stub.runtime service
                                    (StubMore.world StubMore.ready) in
  App.isLoading (App.app (Gemini.ui w')) = false /\
  App.generatedImage (App.app (Gemini.ui w')) = Some Stub.pngImage /\
  App.error (App.app (Gemini.ui w')) = None /\
  App.renderOutputContent (App.app (Gemini.ui w')) = App.Preview Stub.pngImage None.
Proof.
  intros service w'.
  pose proof (proj2 (handleGenerateImage_settles
                       Stub.runtime service (StubMore.world StubMore.ready))
                    Stub.pngImage Stub.pngImage eq_refl eq_refl) as H.
  cbv zeta in H.
  destruct H as [_ [_ [Hl [_ Hm]]]]; try (vm_compute; discriminate).
  assert (Retry.outcome
            (Gemini.generateStyledImage Stub.runtime service Stub.pngImage
                                        Stub.pngImage None
                                        (StubMore.world StubMore.ready))
          = Resolved Stub.pngImage) as E by (vm_compute; reflexivity).
  rewrite E in Hm. destruct Hm as [Hg [He [_ Hv]]].
  split; [exact Hl |]. split; [exact Hg |]. split; [exact He | exact Hv].
Defined.

Lemma handleAnalyzeTrend_settles_witness :
  let service := Stub.answering [] (Resolved (Stub.textResponse "0")) in
  let s := App.setGeneratedImage (Some Stub.pngImage) StubMore.ready in
  let w' := App.handleAnalyzeTrend Stub.runtime service (StubMore.world s) in
  App.trendResult (App.app (Gemini.ui w')) = Some (Json.JNumber 0 0) /\
  App.renderOutputContent (App.app (Gemini.ui w')) = App.Preview Stub.pngImage None.
Proof.
  intros service s w'.
  pose proof (proj2 (handleAnalyzeTrend_settles
                       Stub.runtime service (StubMore.world s))
                    Stub.pngImage eq_refl) as H.
  cbv zeta in H.
  destruct H as [_ [_ [_ [_ Hm]]]]; try (vm_compute; discriminate).
  assert (Retry.outcome
            (Gemini.analyzeTrend Stub.runtime service Stub.pngImage None
                                 (StubMore.world s))
          = Resolved (Json.JNumber 0 0)) as E by (vm_compute; reflexivity).
  rewrite E in Hm. destruct Hm as [Ht [_ [_ Hv]]].
  split; [exact Ht | exact Hv].
Defined.

Lemma selection_stays_in_the_library_witness :
  SpecMore.SelectionValid
    (SpecMore.perform (SpecMore.RemoveItem 2)
                      (SpecMore.perform (SpecMore.SelectItem StubMore.jacket)
                                        StubMore.initial)) /\
  SpecMore.SelectionValid
    (App.app (Gemini.ui (App.handleGenerateImage
                           Stub.runtime
                           (Stub.answering [] (Resolved Stub.imageResponse))
                           (StubMore.world StubMore.ready)))).
Proof.
  destruct (selection_stays_in_the_library
              Stub.runtime (Stub.answering [] (Resolved Stub.imageResponse)))
    as [Hreach Hhandlers].
  split.
  - apply (Hreach StubMore.initial); [exact I |].
    apply SpecMore.reach_step; [| exact I].
    apply SpecMore.reach_step; [apply SpecMore.reach_init | now left].
  - apply Hhandlers. exists StubMore.jacket.
    split; [now left | split; reflexivity].
Defined.

Lemma add_then_remove_restores_witness :
  App.handleRemoveItem
    1700000000000
    (App.handleAddItem 1700000000000
                       (App.mkNewItem "Scarf" "Tops" Stub.pngImage) StubMore.ready)
  = App.handleStartOver StubMore.ready.
Proof.
  apply (proj1 (add_then_remove_restores
                  1700000000000 (App.mkNewItem "Scarf" "Tops" Stub.pngImage)
                  StubMore.ready)).
  - intros it [<- | [<- | [<- | []]]]; discriminate.
  - exists StubMore.jacket. split; [now left | split; reflexivity].
Defined.

Lemma stored_image_is_read_back_witness :
  Gemini.createImagePart Stub.runtime
                         (Ui.imageDataOf (Ui.dataUrl "image/png" "abc123"))
  = Resolved Stub.pngPart.
Proof.
  assert (SpecMore.Lacks ";" "image/png") as H1 by (simpl; repeat split; discriminate).
  assert (SpecMore.Lacks ":" "image/png") as H2 by (simpl; repeat split; discriminate).
  assert (SpecMore.Lacks "," "image/png") as H3 by (simpl; repeat split; discriminate).
  assert (SpecMore.Lacks "," "abc123") as H4 by (simpl; repeat split; discriminate).
  exact (proj2 stored_image_is_read_back "image/png" "abc123" H1 H2 H3 H4).
Defined.
